(** * Rolling time window: a shallow embedding of [rollingtime.js] and [main.js]

    The development follows the two source files.  [rollingtime.js] holds the
    class [RollingTime] (constructor and [put]); [main.js] holds the batch
    driver ([main], [parseObservation], [printRtwState]).

    A JavaScript number is a binary64 value.  It is modelled as [NaN], an
    infinity, or the rational it stands for; every addition, subtraction and
    conversion of a literal rounds its exact result to the nearest binary64
    value, ties to even, and overflows to an infinity.  The sign of a zero
    is not recorded: [Fin 0] stands for both zeros, which [<], [>=], [===]
    and [isNaN] do not tell apart, and the program computes nothing else
    from a zero than sums, differences, [Math.min] and [Math.max]. *)

From Stdlib Require Import String Ascii QArith Qround Qabs Qpower List Bool Arith ZArith Lia Lqa.
Import ListNotations.

(** ** JavaScript numbers *)

Inductive number : Type :=
| NaN
| NegInfinity
| Fin (q : Q)
| Infinity.

Coercion Fin : Q >-> number.

Definition Qltb (x y : Q) : bool := negb (Qle_bool y x).

(** *** Rounding to binary64 *)

Definition pow2 (e : Z) : Q := (2 # 1) ^ e.

(** The exponent [k] with [2^k <= q < 2^(k+1)], for a positive [q]. *)
Definition ilog2 (q : Q) : Z :=
  let k := (Z.log2 (Qnum q) - Z.log2 (Zpos (Qden q)))%Z in
  if Qle_bool (pow2 k) q then k else (k - 1)%Z.

(** The nearest integer, a tie going to the even one. *)
Definition rne (x : Q) : Z :=
  let f := Qfloor x in
  match Qcompare (x - inject_Z f) (1 # 2) with
  | Lt => f
  | Gt => (f + 1)%Z
  | Eq => if Z.even f then f else (f + 1)%Z
  end.

(** The exponent of the last place of a significand of 53 bits for [q]; the
    subnormal numbers share the exponent [-1074]. *)
Definition ulp_exp (q : Q) : Z := Z.max (ilog2 (Qabs q) - 52) (-1074).

Definition scaled (q : Q) : Q := q * pow2 (- ulp_exp q).

(** The nearest multiple of the unit in the last place, in lowest terms;
    the exponent is not bounded above here. *)
Definition nearest (q : Q) : Q :=
  let q := Qred q in
  if Qeq_bool q 0 then 0
  else let e := ulp_exp q in Qred (inject_Z (rne (q * pow2 (- e))) * pow2 e).

(** The binary64 value of the real [q]: [nearest q], or an infinity when
    that is [2^1024] or beyond. *)
Definition round (q : Q) : number :=
  let v := nearest q in
  if Qle_bool (pow2 1024) v then Infinity
  else if Qle_bool v (- pow2 1024) then NegInfinity
  else Fin v.

(** [d] is a significand of at most 53 bits times a power of two that is
    not below [2^-1074]. *)
Definition double (d : Q) : Prop :=
  exists m e, d == inject_Z m * pow2 e /\ (Z.abs m <= 2 ^ 53)%Z /\ (-1074 <= e)%Z.

(** [a] is a value of the type: a finite one is a [double] below [2^1024]
    in absolute value. *)
Definition binary64 (a : number) : Prop :=
  match a with
  | Fin d => double d /\ Qabs d < pow2 1024
  | _ => True
  end.


(** *** Arithmetic and comparisons *)

(** Unary minus. *)
Definition num_neg (a : number) : number :=
  match a with
  | NaN => NaN
  | NegInfinity => Infinity
  | Fin q => Fin (- q)
  | Infinity => NegInfinity
  end.

(** The sum and the difference of two numbers before rounding. *)
Definition exact_add (a b : number) : number :=
  match a, b with
  | NaN, _ | _, NaN => NaN
  | Fin x, Fin y => Fin (x + y)
  | Infinity, NegInfinity | NegInfinity, Infinity => NaN
  | Infinity, _ | _, Infinity => Infinity
  | NegInfinity, _ | _, NegInfinity => NegInfinity
  end.

Definition exact_sub (a b : number) : number := exact_add a (num_neg b).

Definition rounded (a : number) : number :=
  match a with
  | Fin q => round q
  | _ => a
  end.

(** [a + b]: the exact sum, rounded. *)
Definition num_add (a b : number) : number := rounded (exact_add a b).

(** [a - b]: the exact difference, rounded. *)
Definition num_sub (a b : number) : number := rounded (exact_sub a b).

(** [a < b]; any comparison with [NaN] is false. *)
Definition num_lt (a b : number) : bool :=
  match a, b with
  | NaN, _ | _, NaN => false
  | Fin x, Fin y => Qltb x y
  | _, NegInfinity => false
  | NegInfinity, _ => true
  | Infinity, _ => false
  | Fin _, Infinity => true
  end.

(** [a >= b]; any comparison with [NaN] is false. *)
Definition num_ge (a b : number) : bool :=
  match a, b with
  | NaN, _ | _, NaN => false
  | _, _ => negb (num_lt a b)
  end.

(** [a === b] on numbers. *)
Definition strict_eq (a b : number) : bool :=
  match a, b with
  | Fin x, Fin y => Qeq_bool x y
  | Infinity, Infinity | NegInfinity, NegInfinity => true
  | _, _ => false
  end.

Definition isNaN (a : number) : bool :=
  match a with NaN => true | _ => false end.

(** [Math.min(a, b)] and [Math.max(a, b)]: [NaN] as soon as one argument is. *)
Definition Math_min (a b : number) : number :=
  match a, b with
  | NaN, _ | _, NaN => NaN
  | _, _ => if num_lt b a then b else a
  end.

Definition Math_max (a b : number) : number :=
  match a, b with
  | NaN, _ | _, NaN => NaN
  | _, _ => if num_lt a b then b else a
  end.

Declare Scope num_scope.
Delimit Scope num_scope with num.
Bind Scope num_scope with number.

Notation "a + b" := (num_add a b) : num_scope.
Notation "a - b" := (num_sub a b) : num_scope.
Notation "a <? b" := (num_lt a b) (at level 70) : num_scope.
Notation "a >=? b" := (num_ge a b) (at level 70) : num_scope.
Notation "a === b" := (strict_eq a b) (at level 70) : num_scope.

(** [Number.MAX_VALUE] is [(2^53 - 1) * 2^971]. *)
Definition MAX_VALUE_Q : Q := inject_Z ((2 ^ 53 - 1) * 2 ^ 971).
Definition MAX_VALUE : number := Fin MAX_VALUE_Q.

Arguments MAX_VALUE_Q : simpl never.
Arguments MAX_VALUE : simpl never.
Arguments nearest : simpl never.
Arguments round : simpl never.

(** The outcome of evaluating an expression: a value or a thrown error. *)
Inductive completion (A : Type) : Type :=
| Normal (a : A)
| Throw (e : string).

Arguments Normal {A} a.
Arguments Throw {A} e.

(** ** rollingtime.js *)

(** An element of [this.observations]: the object literal
    [{timestamp: timestamp, cost: cost}]. *)
Record observation : Type := Observation {
  timestamp : number;
  cost : number
}.

(** The properties of a [RollingTime] instance. *)
Record RollingTime : Type := mkRollingTime {
  TAU : number;
  observations : list observation;
  sum : number;
  min : number;
  max : number
}.

(** [constructor(TAU)]: no check is made on [TAU]. *)
Definition constructor (tau : number) : RollingTime :=
  {| TAU := tau;
     observations := [];
     sum := Fin 0;
     min := MAX_VALUE;
     max := Fin 0 |}.

(** The variables the callback of [forEach] updates in the [else] branch of
    [put]: [this.sum], [this.min], [this.max] and the local
    [newStartIndex]. *)
Record rescan : Type := mkRescan {
  r_sum : number;
  r_min : number;
  r_max : number;
  newStartIndex : nat
}.

(** One call of the arrow function [obs => { ... }]. *)
Definition visit (ts tau : number) (acc : rescan) (obs : observation) : rescan :=
  if (ts - tau >=? timestamp obs)%num then
    {| r_sum := r_sum acc; r_min := r_min acc; r_max := r_max acc;
       newStartIndex := S (newStartIndex acc) |}
  else
    {| r_sum := (r_sum acc + cost obs)%num;
       r_min := Math_min (r_min acc) (cost obs);
       r_max := Math_max (r_max acc) (cost obs);
       newStartIndex := newStartIndex acc |}.

(** [this.observations.forEach(...)] started from the reset values. *)
Definition forEach (ts tau : number) (l : list observation) : rescan :=
  fold_left (visit ts tau) l
    {| r_sum := Fin 0; r_min := MAX_VALUE; r_max := Fin 0; newStartIndex := 0 |}.

(** [put(timestamp, cost)].  After the [push] the array is not empty, so
    [this.observations[0]] is defined: the default of [hd] is never used. *)
Definition put (this : RollingTime) (ts c : number) : RollingTime :=
  let pushed := observations this ++ [Observation ts c] in
  if (ts - TAU this <? timestamp (hd (Observation ts c) pushed))%num then
    {| TAU := TAU this;
       observations := pushed;
       sum := (sum this + c)%num;
       min := Math_min (min this) c;
       max := Math_max (max this) c |}
  else
    let r := forEach ts (TAU this) pushed in
    {| TAU := TAU this;
       observations := skipn (newStartIndex r) pushed;
       sum := r_sum r;
       min := r_min r;
       max := r_max r |}.

(** The observations a call of [put] drops: the first [newStartIndex] ones
    on the rescan path, none on the other. *)
Definition evicted (this : RollingTime) (ts c : number) : list observation :=
  let pushed := observations this ++ [Observation ts c] in
  if (ts - TAU this <? timestamp (hd (Observation ts c) pushed))%num then []
  else firstn (newStartIndex (forEach ts (TAU this) pushed)) pushed.

(** A sequence of calls [rtw.put(t, c)] on a fresh window. *)
Definition puts (this : RollingTime) (l : list (number * number)) : RollingTime :=
  fold_left (fun w p => put w (fst p) (snd p)) l this.

Definition count (this : RollingTime) : nat := List.length (observations this).

(** [new RollingTime(TAU)]: the constructor body has no [throw]. *)
Definition new_RollingTime (tau : number) : completion RollingTime :=
  Normal (constructor tau).

(** ** main.js *)

(** A string is a sequence of code units, here those below 256. *)

Definition tab : ascii := ascii_of_nat 9.

(** [s.split(sep)] for a separator of one code unit: the result is never
    empty, and the empty string gives one empty field. *)
Fixpoint split (sep : ascii) (s : string) : list string :=
  match s with
  | EmptyString => [EmptyString]
  | String c s' =>
      if Ascii.eqb c sep then EmptyString :: split sep s'
      else match split sep s' with
           | f :: fs => String c f :: fs
           | [] => [String c EmptyString]
           end
  end.

(** *** The conversion [Number(s)] of a string

    It follows the grammar [StringNumericLiteral] of ECMAScript: optional
    white space around an optional [StrNumericLiteral]; the mathematical
    value of a literal is rounded to binary64. *)

(** [StrWhiteSpaceChar], for code units below 256: TAB, LF, VT, FF, CR,
    SP and NBSP. *)
Definition StrWhiteSpaceChar (c : ascii) : bool :=
  let n := nat_of_ascii c in
  (((9 <=? n) && (n <=? 13)) || (n =? 32) || (n =? 160))%nat.

Fixpoint trimStart (s : string) : string :=
  match s with
  | EmptyString => EmptyString
  | String c s' => if StrWhiteSpaceChar c then trimStart s' else s
  end.

Fixpoint trimEnd (s : string) : string :=
  match s with
  | EmptyString => EmptyString
  | String c s' =>
      match trimEnd s' with
      | EmptyString => if StrWhiteSpaceChar c then EmptyString else String c EmptyString
      | r => String c r
      end
  end.

(** The value of a digit in the given radix, if it is one. *)
Definition digit (radix : Z) (c : ascii) : option Z :=
  let n := Z.of_nat (nat_of_ascii c) in
  let v :=
    (if (48 <=? n) && (n <=? 57) then Some (n - 48)
     else if (97 <=? n) && (n <=? 102) then Some (n - 87)
     else if (65 <=? n) && (n <=? 70) then Some (n - 55)
     else None)%Z in
  match v with
  | Some d => if (d <? radix)%Z then Some d else None
  | None => None
  end.

(** The longest prefix of digits, most significant first, and the rest. *)
Fixpoint digits (radix : Z) (s : string) : list Z * string :=
  match s with
  | EmptyString => ([], EmptyString)
  | String c s' =>
      match digit radix c with
      | Some d => let (ds, r) := digits radix s' in (d :: ds, r)
      | None => ([], s)
      end
  end.

Definition value (radix : Z) (ds : list Z) : Z :=
  fold_left (fun acc d => acc * radix + d)%Z ds 0%Z.

(** [0b...], [0o...], [0x...]: a prefix, then one digit or more and nothing
    else. *)
Definition NonDecimalIntegerLiteral (s : string) : option number :=
  match s with
  | String "0" (String p r) =>
      let radix :=
        if (Ascii.eqb p "b" || Ascii.eqb p "B")%bool then Some 2%Z
        else if (Ascii.eqb p "o" || Ascii.eqb p "O")%bool then Some 8%Z
        else if (Ascii.eqb p "x" || Ascii.eqb p "X")%bool then Some 16%Z
        else None in
      match radix with
      | Some rx =>
          match digits rx r with
          | ((_ :: _) as ds, EmptyString) => Some (round (inject_Z (value rx ds)))
          | _ => Some NaN
          end
      | None => None
      end
  | _ => None
  end.

(** [ExponentPart] after its indicator: an optional sign, then one digit or
    more and nothing else. *)
Definition exponent (s : string) : option Z :=
  let (sign, r) :=
    match s with
    | String "+" r => (1%Z, r)
    | String "-" r => ((-1)%Z, r)
    | _ => (1%Z, s)
    end in
  match digits 10 r with
  | ((_ :: _) as ds, EmptyString) => Some (sign * value 10 ds)%Z
  | _ => None
  end.

(** [Infinity], or digits with an optional fraction and an optional
    exponent; one digit at least before or after the point. *)
Definition StrUnsignedDecimalLiteral (s : string) : number :=
  if String.eqb s "Infinity" then Infinity
  else
    let (ip, r1) := digits 10 s in
    let (fp, r2) :=
      match r1 with
      | String "." r => digits 10 r
      | _ => ([], r1)
      end in
    match ip ++ fp with
    | [] => NaN
    | ds =>
        let scale := (- Z.of_nat (List.length fp))%Z in
        match r2 with
        | EmptyString => round (inject_Z (value 10 ds) * (10 # 1) ^ scale)
        | String e r3 =>
            if (Ascii.eqb e "e" || Ascii.eqb e "E")%bool then
              match exponent r3 with
              | Some x => round (inject_Z (value 10 ds) * (10 # 1) ^ (x + scale)%Z)
              | None => NaN
              end
            else NaN
        end
    end.

Definition StrDecimalLiteral (s : string) : number :=
  match s with
  | String "+" r => StrUnsignedDecimalLiteral r
  | String "-" r => num_neg (StrUnsignedDecimalLiteral r)
  | _ => StrUnsignedDecimalLiteral s
  end.

(** [Number(s)]: white space is trimmed, the empty string is [0], anything
    outside the grammar is [NaN]. *)
Definition Number (s : string) : number :=
  match trimEnd (trimStart s) with
  | EmptyString => Fin 0
  | lit =>
      match NonDecimalIntegerLiteral lit with
      | Some n => n
      | None => StrDecimalLiteral lit
      end
  end.

(** *** parseObservation *)

(** The result of [parseObservation(line, rtw)]: the returned error message
    ([None] for [null]) and the instance [rtw] after the call. *)
Definition parseObservation (line : string) (rtw : RollingTime)
  : option string * RollingTime :=
  let numPair := split tab line in
  if negb (List.length numPair =? 2)%nat then
    (Some ("Expected format: ${TIMESTAMP}" ++ String tab "${COST}, got: " ++ line)%string,
     rtw)
  else
    let timestamp := Number (nth 0 numPair EmptyString) in
    if isNaN timestamp then (Some "Timestamp expected to be a number"%string, rtw)
    else
      let cost := Number (nth 1 numPair EmptyString) in
      if isNaN cost then (Some "Cost expected to be a number"%string, rtw)
      else (None, put rtw timestamp cost).

(** *** main *)

(** What the program writes: a fixed line on the standard output, a row of
    [printRtwState] (the six arguments of [printf]), or the message
    [Error on line ${curLine}: ${err}] on the standard error. *)
Inductive written : Type :=
| Log_text (s : string)
| Log_row (timestamp cost : number) (n_o : nat) (sum min max : number)
| Error_on_line (curLine : nat) (err : string).

(** [printRtwState(rtw)]: [rtw.observations.slice(-1)[0]] is [undefined] on
    an empty buffer, and reading its [timestamp] throws. *)
Definition printRtwState (rtw : RollingTime) : completion written :=
  match rev (observations rtw) with
  | lastObservation :: _ =>
      Normal (Log_row (timestamp lastObservation) (cost lastObservation)
                (List.length (observations rtw)) (sum rtw) (min rtw) (max rtw))
  | [] => Throw "TypeError: Cannot read property 'timestamp' of undefined"
  end.

Definition printTableHeader : list written :=
  [Log_text "   Time       Value N_O Roll_Sum Min_Value Max_Value";
   Log_text "-------------------------------------------------------"].

Definition printUsage : list written :=
  [Log_text "Usage:";
   Log_text "rollingtime --input (path-to-input-file) [--tau (window-size)]"].

(** The variables the ['line'] handler reads and updates, and what has been
    written so far. *)
Record reader : Type := mkReader {
  curLine : nat;
  rtw : RollingTime;
  console : list written
}.

(** One call of the handler [line => { ... }]. *)
Definition on_line (st : reader) (line : string) : completion reader :=
  let curLine := S (curLine st) in
  let (err, rtw) := parseObservation line (rtw st) in
  match err with
  | None =>
      match printRtwState rtw with
      | Normal row => Normal (mkReader curLine rtw (console st ++ [row]))
      | Throw e => Throw e
      end
  | Some err =>
      Normal (mkReader curLine rtw (console st ++ [Error_on_line curLine err]))
  end.

(** The handler called on each line in turn; an error thrown by a call is
    not caught and ends the run. *)
Fixpoint read_lines (st : reader) (lines : list string) : completion reader :=
  match lines with
  | [] => Normal st
  | line :: rest =>
      match on_line st line with
      | Normal st' => read_lines st' rest
      | Throw e => Throw e
      end
  end.

(** The command line arguments [main] looks at; [args.tau], when given, is
    taken to be a number. *)
Record arguments : Type := mkArguments {
  tau : option number;
  input : option string
}.

(** What a run of [main] comes to: the usage was printed and nothing read,
    or the lines were handled. *)
Inductive outcome : Type :=
| Usage (out : list written)
| Lines (r : completion reader).

(** [main(args)], given the lines that [readline] emits for the file
    [args.input]. *)
Definition main (args : arguments) (lines : list string) : outcome :=
  let tau := match tau args with None => Fin 60 | Some tau => tau end in
  match input args with
  | None => Usage printUsage
  | Some _ =>
      let rtw := constructor tau in
      Lines (read_lines (mkReader 0 rtw printTableHeader) lines)
  end.


(** ** Vocabulary for the claims on [put]

    Timestamps and values are real numbers in the specification; the
    program holds binary64 values.  [inj (t, c)] is the pair of arguments
    of the call [put(t, c)] for two reals [t] and [c], each rounded as a
    literal is, and [ob (t, c)] is the observation that the call pushes. *)

Definition inj (p : Q * Q) : number * number := (round (fst p), round (snd p)).
Definition ob (p : Q * Q) : observation := Observation (round (fst p)) (round (snd p)).

(** The instance whose buffer holds [w] and whose aggregates are the left
    folds over the costs of [w], started from the reset values, each step
    as the program computes it. *)
Definition window (tau : number) (w : list observation) : RollingTime :=
  {| TAU := tau;
     observations := w;
     sum := fold_left num_add (map cost w) (Fin 0);
     min := fold_left Math_min (map cost w) MAX_VALUE;
     max := fold_left Math_max (map cost w) (Fin 0) |}.

(** For [x] the value of [timestamp - this.TAU]: the test
    [timestamp - this.TAU >= obs.timestamp] of the rescan holds
    ([expired]) or fails ([live]). *)
Definition expired (x : number) (o : observation) : bool := (x >=? timestamp o)%num.
Definition live (x : number) (o : observation) : bool := negb (expired x o).

(** Non-decreasing reals. *)
Fixpoint nondecreasing (l : list Q) : bool :=
  match l with
  | [] => true
  | a :: tl =>
      match tl with
      | [] => true
      | b :: _ => Qle_bool a b && nondecreasing tl
      end
  end.

(** Non-decreasing numbers, none of them [NaN] when there are two or
    more. *)
Fixpoint ascending (l : list number) : bool :=
  match l with
  | [] => true
  | a :: tl =>
      match tl with
      | [] => true
      | b :: _ => (b >=? a)%num && ascending tl
      end
  end.


(** The sum of the costs in a buffer, without rounding. *)
Definition exact_sum (l : list observation) : number :=
  fold_right (fun o a => exact_add (cost o) a) (Fin 0) l.

(** The sum of the costs in a buffer as the program adds them: from [0.0],
    first to last, each addition rounded. *)
Definition rounded_sum (l : list observation) : number :=
  fold_left num_add (map cost l) (Fin 0).

(** [m] is the least (greatest) cost in a buffer. *)
Definition is_min_cost (m : number) (l : list observation) : Prop :=
  (exists o, In o l /\ (cost o === m)%num = true) /\
  forall o, In o l -> (cost o >=? m)%num = true.
Definition is_max_cost (m : number) (l : list observation) : Prop :=
  (exists o, In o l /\ (cost o === m)%num = true) /\
  forall o, In o l -> (m >=? cost o)%num = true.

(** The aggregate state after each call of a sequence of [put]. *)
Fixpoint trace (this : RollingTime) (l : list (number * number))
  : list (nat * number * number * number) :=
  match l with
  | [] => []
  | p :: l' =>
      let this' := put this (fst p) (snd p) in
      (count this', sum this', min this', max this') :: trace this' l'
  end.

(** ** Vocabulary for the batch driver *)

(** A line [parseObservation] is meant to reject: it does not split on the
    tab into two fields, or a field converts to [NaN]. *)
Definition malformed (line : string) : bool :=
  let numPair := split tab line in
  negb (List.length numPair =? 2)%nat || existsb (fun f => isNaN (Number f)) numPair.

(** Empty or made of white space only. *)
Fixpoint blank (s : string) : bool :=
  match s with
  | EmptyString => true
  | String c s' => StrWhiteSpaceChar c && blank s'
  end.

Fixpoint no_tab (s : string) : bool :=
  match s with
  | EmptyString => true
  | String c s' => negb (Ascii.eqb c tab) && no_tab s'
  end.

(** [fields.join(sep)] for a separator of one code unit. *)
Fixpoint join (sep : ascii) (fields : list string) : string :=
  match fields with
  | [] => EmptyString
  | f :: fs =>
      match fs with
      | [] => f
      | _ => (f ++ String sep (join sep fs))%string
      end
  end.

(** The number of tabs in a line. *)
Fixpoint tabs (s : string) : nat :=
  match s with
  | EmptyString => 0%nat
  | String c s' => ((if Ascii.eqb c tab then 1 else 0) + tabs s')%nat
  end.

(** The two numbers [parseObservation] converts from a line:
    [Number(numPair[0])] and [Number(numPair[1])]. *)
Definition fields (line : string) : number * number :=
  let numPair := split tab line in
  (Number (nth 0 numPair EmptyString), Number (nth 1 numPair EmptyString)).

(** What the handler writes for the line numbered [n]: the error with that
    number for a malformed line, a row that starts with the two converted
    numbers for any other. *)
Definition reported (n : nat) (line : string) (out : written) : Prop :=
  if malformed line then exists err, out = Error_on_line n err
  else exists n_o s m M,
      out = Log_row (fst (fields line)) (snd (fields line)) n_o s m M.

(** [isFinite(a)]. *)
Definition isFinite (a : number) : bool :=
  match a with Fin _ => true | _ => false end.

(** The window size [main] uses: [args.tau], or [60] when it is absent. *)
Definition window_size (args : arguments) : number :=
  match tau args with None => Fin 60 | Some tau => tau end.

(** A line [parseObservation] does not reject. *)
Definition accepted (line : string) : bool := negb (malformed line).

(** The window size is not absorbed at the timestamp of a line:
    [timestamp - TAU < timestamp] as [put] computes it. *)
Definition advances (tau : number) (line : string) : bool :=
  (fst (fields line) - tau <? fst (fields line))%num.

(** * Proofs *)

(** ** Rounding to binary64 *)

Lemma pow2_pos (e : Z) : 0 < pow2 e.
Proof. apply Qpower_0_lt. reflexivity. Qed.

Lemma pow2_plus (a b : Z) : pow2 (a + b) == pow2 a * pow2 b.
Proof. apply Qpower_plus. discriminate. Qed.

Lemma pow2_le (a b : Z) : (a <= b)%Z -> pow2 a <= pow2 b.
Proof. intros H. apply Qpower_le_compat_l; [exact H|discriminate]. Qed.

Lemma pow2_succ (e : Z) : pow2 (e + 1) == 2 * pow2 e.
Proof. rewrite pow2_plus. change (pow2 1) with 2. lra. Qed.

Lemma pow2_Z (n : Z) : (0 <= n)%Z -> pow2 n == inject_Z (2 ^ n).
Proof. intros H. symmetry. apply (Zpower_Qpower 2 n H). Qed.

Lemma pow2_opp (e : Z) : pow2 (- e) * pow2 e == 1.
Proof. rewrite <- pow2_plus. now replace (- e + e)%Z with 0%Z by lia. Qed.

Lemma Qabs_cases (x : Q) :
  (0 <= x /\ Qabs x == x) \/ (x <= 0 /\ Qabs x == - x).
Proof.
  apply (Qabs_case x (fun y => (0 <= x /\ y == x) \/ (x <= 0 /\ y == - x))).
  - intros H. left. split; [exact H|reflexivity].
  - intros H. right. split; [exact H|reflexivity].
Qed.

Ltac qabs x := destruct (Qabs_cases x) as [[? ?]|[? ?]].

Lemma rne_floor (x : Q) :
  (rne x = Qfloor x /\ x - inject_Z (Qfloor x) <= 1 # 2) \/
  (rne x = (Qfloor x + 1)%Z /\ 1 # 2 <= x - inject_Z (Qfloor x)).
Proof.
  unfold rne. destruct (Qcompare_spec (x - inject_Z (Qfloor x)) (1 # 2)) as [E|E|E].
  - destruct (Z.even (Qfloor x)); [left|right]; split; try reflexivity; lra.
  - left. split; [reflexivity|lra].
  - right. split; [reflexivity|lra].
Qed.

Lemma rne_nearest (x : Q) (k : Z) :
  Qabs (inject_Z (rne x) - x) <= Qabs (inject_Z k - x).
Proof.
  pose proof (Qfloor_le x) as Hlo. pose proof (Qlt_floor x) as Hhi.
  rewrite inject_Z_plus in Hhi. change (inject_Z 1) with 1 in Hhi.
  assert (Hk : inject_Z k <= inject_Z (Qfloor x) \/ inject_Z (Qfloor x) + 1 <= inject_Z k).
  { destruct (Z_le_gt_dec k (Qfloor x)) as [H|H].
    - left. now rewrite <- Zle_Qle.
    - right. change 1 with (inject_Z 1). rewrite <- inject_Z_plus, <- Zle_Qle. lia. }
  destruct (rne_floor x) as [[-> H]|[-> H]];
    [|rewrite inject_Z_plus; change (inject_Z 1) with 1];
    qabs (inject_Z k - x);
    match goal with |- Qabs ?a <= _ => qabs a end; destruct Hk; lra.
Qed.

Lemma rne_half (x : Q) : Qabs (inject_Z (rne x) - x) <= 1 # 2.
Proof.
  pose proof (Qfloor_le x) as Hlo. pose proof (Qlt_floor x) as Hhi.
  rewrite inject_Z_plus in Hhi. change (inject_Z 1) with 1 in Hhi.
  destruct (rne_floor x) as [[-> H]|[-> H]];
    [|rewrite inject_Z_plus; change (inject_Z 1) with 1];
    match goal with |- Qabs ?a <= _ => qabs a end; lra.
Qed.

Lemma ilog2_spec (q : Q) :
  0 < q -> pow2 (ilog2 q) <= q /\ q < pow2 (ilog2 q + 1).
Proof.
  intros Hq. destruct q as [n d]. unfold ilog2. cbn [Qnum Qden].
  assert (Hn : (0 < n)%Z).
  { unfold Qlt in Hq. cbn in Hq. lia. }
  set (a := Z.log2 n). set (b := Z.log2 (Z.pos d)).
  assert (Ha0 : (0 <= a)%Z) by apply Z.log2_nonneg.
  assert (Hb0 : (0 <= b)%Z) by apply Z.log2_nonneg.
  destruct (Z.log2_spec n Hn) as [Ha1 Ha2]. fold a in Ha1, Ha2.
  destruct (Z.log2_spec (Z.pos d) eq_refl) as [Hb1 Hb2]. fold b in Hb1, Hb2.
  rewrite Zle_Qle, <- pow2_Z in Ha1 by exact Ha0.
  rewrite Zlt_Qlt, <- pow2_Z, <- Z.add_1_r, pow2_succ in Ha2 by lia.
  rewrite Zle_Qle, <- pow2_Z in Hb1 by exact Hb0.
  rewrite Zlt_Qlt, <- pow2_Z, <- Z.add_1_r, pow2_succ in Hb2 by lia.
  assert (HK : pow2 (a - b) * pow2 b == pow2 a).
  { rewrite <- pow2_plus. now replace (a - b + b)%Z with a by lia. }
  assert (Hq' : (n # d) * inject_Z (Z.pos d) == inject_Z n).
  { unfold Qeq, Qmult, inject_Z. cbn. lia. }
  pose proof (pow2_pos (a - b)) as HKp. pose proof (pow2_pos b) as HBp.
  assert (Hup : (n # d) < 2 * pow2 (a - b)).
  { apply Qnot_le_lt. intros C.
    assert (2 * pow2 (a - b) * inject_Z (Z.pos d) <= (n # d) * inject_Z (Z.pos d)).
    { apply Qmult_le_compat_r; [exact C|lra]. }
    assert (2 * pow2 (a - b) * pow2 b <= 2 * pow2 (a - b) * inject_Z (Z.pos d)).
    { apply Qmult_le_l; lra. }
    lra. }
  assert (Hlo : pow2 (a - b) < 2 * (n # d)).
  { apply Qnot_le_lt. intros C.
    assert (2 * (n # d) * inject_Z (Z.pos d) <= pow2 (a - b) * inject_Z (Z.pos d)).
    { apply Qmult_le_compat_r; [exact C|lra]. }
    assert (pow2 (a - b) * inject_Z (Z.pos d) < pow2 (a - b) * (2 * pow2 b)).
    { apply Qmult_lt_l; lra. }
    lra. }
  destruct (Qle_bool (pow2 (a - b)) (n # d)) eqn:E.
  - apply Qle_bool_iff in E. rewrite pow2_succ. split; lra.
  - assert (E' : (n # d) < pow2 (a - b)).
    { apply Qnot_le_lt. intros C. apply Qle_bool_iff in C. congruence. }
    replace (a - b - 1 + 1)%Z with (a - b)%Z by lia.
    assert (pow2 (a - b) == 2 * pow2 (a - b - 1)).
    { rewrite <- pow2_succ. now replace (a - b - 1 + 1)%Z with (a - b)%Z by lia. }
    split; lra.
Qed.

Lemma Qabs_pos_nonzero (q : Q) : ~ q == 0 -> 0 < Qabs q.
Proof. intros H. qabs q; lra. Qed.

Lemma ulp_exp_min (q : Q) : (-1074 <= ulp_exp q)%Z.
Proof. unfold ulp_exp. lia. Qed.

Lemma ulp_exp_upper (q : Q) : ~ q == 0 -> Qabs q < pow2 (ulp_exp q + 53).
Proof.
  intros H. destruct (ilog2_spec (Qabs q) (Qabs_pos_nonzero q H)) as [_ Hu].
  eapply Qlt_le_trans; [exact Hu|]. apply pow2_le. unfold ulp_exp. lia.
Qed.

Lemma ulp_exp_lower (q : Q) :
  ~ q == 0 -> (-1074 < ulp_exp q)%Z -> pow2 (ulp_exp q + 52) <= Qabs q.
Proof.
  intros H He. destruct (ilog2_spec (Qabs q) (Qabs_pos_nonzero q H)) as [Hl _].
  eapply Qle_trans; [|exact Hl]. apply pow2_le. unfold ulp_exp in *. lia.
Qed.

Lemma scaled_back (q : Q) : scaled q * pow2 (ulp_exp q) == q.
Proof.
  unfold scaled. rewrite <- Qmult_assoc, pow2_opp. lra.
Qed.

Lemma nearest_cases (q : Q) :
  (q == 0 /\ nearest q == 0) \/
  (~ q == 0 /\
   nearest q == inject_Z (rne (scaled (Qred q))) * pow2 (ulp_exp (Qred q))).
Proof.
  unfold nearest. destruct (Qeq_bool (Qred q) 0) eqn:E.
  - left. apply Qeq_bool_iff in E. rewrite Qred_correct in E. split; [exact E|reflexivity].
  - right. split.
    + intros C. rewrite <- Qred_correct in C. apply Qeq_bool_iff in C. congruence.
    + rewrite Qred_correct. reflexivity.
Qed.

Lemma nearest_comp (p q : Q) : p == q -> nearest p = nearest q.
Proof. intros H. unfold nearest. now rewrite (Qred_complete p q H). Qed.

Lemma Qabs_Qmult_pos (a s : Q) : 0 < s -> Qabs a * s == Qabs (a * s).
Proof. intros H. rewrite Qabs_Qmult, (Qabs_pos s) by lra. reflexivity. Qed.

Lemma scaled_bound (q : Q) : ~ q == 0 -> Qabs (scaled q) < inject_Z (2 ^ 53).
Proof.
  intros H. pose proof (ulp_exp_upper q H) as Hu.
  rewrite pow2_plus in Hu. rewrite <- pow2_Z by lia.
  pose proof (pow2_pos (ulp_exp q)) as He.
  pose proof (scaled_back q) as Hb.
  assert (Ha : Qabs (scaled q) * pow2 (ulp_exp q) == Qabs q).
  { rewrite (Qabs_Qmult_pos (scaled q) _ He). now rewrite Hb. }
  apply Qnot_le_lt. intros C.
  assert (pow2 53 * pow2 (ulp_exp q) <= Qabs (scaled q) * pow2 (ulp_exp q)).
  { apply Qmult_le_compat_r; [exact C|lra]. }
  lra.
Qed.

Lemma rne_bound (x : Q) (B : Z) :
  Qabs x < inject_Z B -> (Z.abs (rne x) <= B)%Z.
Proof.
  intros H. pose proof (rne_half x) as Hh.
  assert (H1 : inject_Z (- (B + 1)) < inject_Z (rne x)).
  { rewrite inject_Z_opp, inject_Z_plus. change (inject_Z 1) with 1.
    qabs x; qabs (inject_Z (rne x) - x); lra. }
  assert (H2 : inject_Z (rne x) < inject_Z (B + 1)).
  { rewrite inject_Z_plus. change (inject_Z 1) with 1.
    qabs x; qabs (inject_Z (rne x) - x); lra. }
  rewrite <- Zlt_Qlt in H1, H2. lia.
Qed.

Lemma nearest_double (q : Q) : double (nearest q).
Proof.
  destruct (nearest_cases q) as [[_ E]|[H E]].
  - exists 0%Z, 0%Z. repeat split; [rewrite E; reflexivity|lia|lia].
  - rewrite <- Qred_correct in H.
    exists (rne (scaled (Qred q))), (ulp_exp (Qred q)). repeat split.
    + exact E.
    + apply rne_bound, scaled_bound, H.
    + apply ulp_exp_min.
Qed.

Lemma Qabs_scale (a b s : Q) :
  0 < s -> Qabs a <= Qabs b -> Qabs (a * s) <= Qabs (b * s).
Proof.
  intros Hs H. rewrite !Qabs_Qmult, (Qabs_pos s) by lra.
  apply Qmult_le_compat_r; lra.
Qed.

(** [nearest q] is at least as close to [q] as any double. *)
Lemma nearest_is_nearest (q d : Q) :
  double d -> Qabs (nearest q - q) <= Qabs (d - q).
Proof.
  intros (md & ed & Ed & Hmd & Hed).
  destruct (nearest_cases q) as [[H0 E]|[H E]].
  { rewrite E, H0. setoid_replace (0 - 0) with 0 by ring. apply Qabs_nonneg. }
  rewrite E. clear E.
  assert (Hr : ~ Qred q == 0) by now rewrite Qred_correct.
  assert (Eq : q == Qred q) by (symmetry; apply Qred_correct).
  set (r := Qred q) in *. clearbody r. rewrite Eq. clear H Eq q.
  set (e := ulp_exp r). pose proof (pow2_pos e) as Hpe.
  pose proof (scaled_back r) as Hb. fold e in Hb.
  assert (Hnear : forall k : Z,
             Qabs (inject_Z (rne (scaled r)) * pow2 e - r) <=
             Qabs (inject_Z k * pow2 e - r)).
  { intros k.
    setoid_replace (inject_Z (rne (scaled r)) * pow2 e - r)
      with ((inject_Z (rne (scaled r)) - scaled r) * pow2 e)
      by (transitivity (inject_Z (rne (scaled r)) * pow2 e - scaled r * pow2 e);
          [now rewrite Hb|ring]).
    setoid_replace (inject_Z k * pow2 e - r)
      with ((inject_Z k - scaled r) * pow2 e)
      by (transitivity (inject_Z k * pow2 e - scaled r * pow2 e);
          [now rewrite Hb|ring]).
    apply Qabs_scale; [exact Hpe|apply rne_nearest]. }
  destruct (Z_le_gt_dec e ed) as [Hle|Hgt].
  - (* [d] is a multiple of [pow2 e] *)
    assert (Ek : d == inject_Z (md * 2 ^ (ed - e)) * pow2 e).
    { rewrite Ed, inject_Z_mult, <- pow2_Z by lia.
      rewrite <- Qmult_assoc, <- pow2_plus.
      now replace (ed - e + e)%Z with ed by lia. }
    rewrite Ek. apply Hnear.
  - (* [d] is below the binade of [r] *)
    assert (He : (-1074 < e)%Z) by lia.
    pose proof (ulp_exp_lower r Hr He) as Hlow. fold e in Hlow.
    assert (H52 : pow2 (e + 52) == inject_Z (2 ^ 52) * pow2 e).
    { rewrite pow2_plus, <- pow2_Z by lia. ring. }
    assert (Hd : Qabs d <= pow2 (e + 52)).
    { rewrite Ed, Qabs_Qmult, (Qabs_pos (pow2 ed)) by (pose proof (pow2_pos ed); lra).
      assert (Hm : Qabs (inject_Z md) <= inject_Z (2 ^ 53)).
      { assert (Hu : inject_Z md <= inject_Z (2 ^ 53)) by (rewrite <- Zle_Qle; lia).
        assert (Hl : inject_Z (- 2 ^ 53) <= inject_Z md) by (rewrite <- Zle_Qle; lia).
        rewrite inject_Z_opp in Hl. qabs (inject_Z md); lra. }
      assert (Hp : pow2 ed <= pow2 (e - 1)) by (apply pow2_le; lia).
      assert (H53 : inject_Z (2 ^ 53) * pow2 (e - 1) == pow2 (e + 52)).
      { rewrite <- pow2_Z, <- pow2_plus by lia.
        now replace (53 + (e - 1))%Z with (e + 52)%Z by lia. }
      rewrite <- H53.
      apply Qle_trans with (inject_Z (2 ^ 53) * pow2 ed).
      - apply Qmult_le_compat_r; [exact Hm|pose proof (pow2_pos ed); lra].
      - apply Qmult_le_l; [reflexivity|exact Hp]. }
    destruct (Qlt_le_dec 0 r) as [Hpos|Hneg].
    + specialize (Hnear (2 ^ 52)%Z). rewrite <- H52 in Hnear.
      eapply Qle_trans; [exact Hnear|].
      qabs r; qabs d; qabs (pow2 (e + 52) - r); qabs (d - r); lra.
    + specialize (Hnear (- 2 ^ 52)%Z).
      rewrite inject_Z_opp in Hnear.
      setoid_replace (- inject_Z (2 ^ 52) * pow2 e) with (- pow2 (e + 52)) in Hnear
        by (rewrite H52; ring).
      eapply Qle_trans; [exact Hnear|].
      qabs r; qabs d; qabs (- pow2 (e + 52) - r); qabs (d - r); lra.
Qed.

Lemma nearest_id (d : Q) : double d -> nearest d == d.
Proof.
  intros H. pose proof (nearest_is_nearest d d H) as Hn.
  setoid_replace (d - d) with 0 in Hn by ring.
  change (Qabs 0) with 0 in Hn. qabs (nearest d - d); lra.
Qed.

Lemma nearest_monotone (a b : Q) : a <= b -> nearest a <= nearest b.
Proof.
  intros Hab.
  pose proof (nearest_is_nearest a (nearest b) (nearest_double b)) as Ha.
  pose proof (nearest_is_nearest b (nearest a) (nearest_double a)) as Hb.
  apply Qnot_lt_le. intros C.
  assert (E : a == b).
  { qabs (nearest a - a); qabs (nearest b - a); qabs (nearest b - b);
      qabs (nearest a - b); lra. }
  rewrite (nearest_comp a b E) in C. lra.
Qed.

(** Rounding does not cross a double. *)
Lemma nearest_ge_double (d y : Q) : double d -> d <= y -> d <= nearest y.
Proof.
  intros Hd H. rewrite <- (nearest_id d Hd). now apply nearest_monotone.
Qed.

Lemma nearest_le_double (d y : Q) : double d -> y <= d -> nearest y <= d.
Proof.
  intros Hd H. rewrite <- (nearest_id d Hd). now apply nearest_monotone.
Qed.

(** ** [round] and the comparisons *)

Lemma Qltb_true (x y : Q) : Qltb x y = true <-> x < y.
Proof.
  unfold Qltb. rewrite negb_true_iff, <- not_true_iff_false, Qle_bool_iff.
  split; [apply Qnot_le_lt | apply Qlt_not_le].
Qed.

Lemma Qltb_false (x y : Q) : Qltb x y = false <-> y <= x.
Proof.
  unfold Qltb. rewrite negb_false_iff. apply Qle_bool_iff.
Qed.

Lemma Qltb_spec (x y : Q) : BoolSpec (x < y) (y <= x) (Qltb x y).
Proof.
  destruct (Qltb x y) eqn:E; constructor.
  - now apply Qltb_true.
  - now apply Qltb_false.
Qed.

Lemma strict_eq_Fin (x y : Q) : strict_eq (Fin x) (Fin y) = true <-> x == y.
Proof. apply Qeq_bool_iff. Qed.

Lemma ge_Fin (x y : Q) : num_ge (Fin x) (Fin y) = true <-> y <= x.
Proof.
  cbn [num_ge num_lt]. rewrite negb_true_iff. apply Qltb_false.
Qed.

Lemma ge_Fin_false (x y : Q) : num_ge (Fin x) (Fin y) = false <-> x < y.
Proof.
  cbn [num_ge num_lt]. rewrite negb_false_iff. apply Qltb_true.
Qed.

Lemma lt_Fin (x y : Q) : num_lt (Fin x) (Fin y) = true <-> x < y.
Proof. apply Qltb_true. Qed.

Lemma num_lt_not_ge (a b : number) : num_lt a b = true -> num_ge a b = false.
Proof.
  destruct a, b; cbn [num_lt num_ge negb]; try discriminate; try reflexivity.
  now intros ->.
Qed.

Lemma num_ge_false_lt (a b : number) :
  isNaN a = false -> isNaN b = false -> num_ge a b = false -> num_lt a b = true.
Proof.
  destruct a, b; cbn [isNaN num_lt num_ge negb]; try discriminate; try reflexivity.
  intros _ _ H. now apply negb_false_iff in H.
Qed.

Lemma num_ge_not_NaN (a b : number) :
  num_ge a b = true -> isNaN a = false /\ isNaN b = false.
Proof. destruct a, b; cbn [num_ge isNaN]; try discriminate; now split. Qed.

Lemma num_ge_refl (a : number) : isNaN a = false -> num_ge a a = true.
Proof.
  destruct a; cbn [isNaN]; try discriminate; try reflexivity.
  intros _. apply ge_Fin. apply Qle_refl.
Qed.

Lemma num_ge_trans (a b c : number) :
  num_ge a b = true -> num_ge b c = true -> num_ge a c = true.
Proof.
  destruct a as [| |x|], b as [| |y|], c as [| |z|];
    try discriminate; try reflexivity.
  rewrite !ge_Fin. intros H1 H2. now apply Qle_trans with y.
Qed.

Lemma num_ge_antisym (a b : number) :
  num_ge a b = true -> num_ge b a = true -> strict_eq a b = true.
Proof.
  destruct a as [| |x|], b as [| |y|]; try discriminate; try reflexivity.
  rewrite !ge_Fin, strict_eq_Fin. intros H1 H2. now apply Qle_antisym.
Qed.

Lemma strict_eq_refl (a : number) : isNaN a = false -> strict_eq a a = true.
Proof.
  destruct a; cbn [isNaN]; try discriminate; try reflexivity.
  intros _. apply strict_eq_Fin. reflexivity.
Qed.

Lemma round_cases (q : Q) :
  (round q = Infinity /\ pow2 1024 <= nearest q) \/
  (round q = NegInfinity /\ nearest q <= - pow2 1024) \/
  (round q = Fin (nearest q) /\ - pow2 1024 < nearest q /\ nearest q < pow2 1024).
Proof.
  unfold round. destruct (Qle_bool (pow2 1024) (nearest q)) eqn:E1.
  - left. split; [reflexivity|now apply Qle_bool_iff].
  - destruct (Qle_bool (nearest q) (- pow2 1024)) eqn:E2.
    + right; left. split; [reflexivity|now apply Qle_bool_iff].
    + right; right. split; [reflexivity|].
      split; apply Qnot_le_lt; intros C; apply Qle_bool_iff in C; congruence.
Qed.

Lemma round_not_NaN (q : Q) : isNaN (round q) = false.
Proof. destruct (round_cases q) as [[-> _]|[[-> _]|[-> _]]]; reflexivity. Qed.

Lemma round_binary64 (q : Q) : binary64 (round q).
Proof.
  destruct (round_cases q) as [[-> _]|[[-> _]|[-> [H1 H2]]]]; cbn [binary64]; auto.
  split; [apply nearest_double|]. qabs (nearest q); lra.
Qed.

Lemma round_comp (p q : Q) : p == q -> round p = round q.
Proof. intros H. unfold round. now rewrite (nearest_comp p q H). Qed.

(** Rounding is monotone. *)
Lemma round_mono (a b : Q) : a <= b -> (round b >=? round a)%num = true.
Proof.
  intros H. pose proof (nearest_monotone a b H) as Hn.
  pose proof (pow2_pos 1024) as Hp.
  destruct (round_cases a) as [[-> Ha]|[[-> Ha]|[-> [Ha1 Ha2]]]];
    destruct (round_cases b) as [[-> Hb]|[[-> Hb]|[-> [Hb1 Hb2]]]];
    try reflexivity; try (exfalso; lra).
  now apply ge_Fin.
Qed.

(** Rounding does not cross a binary64 value. *)
Lemma round_ge_double (d y : Q) :
  double d -> - pow2 1024 < d -> d <= y -> (round y >=? Fin d)%num = true.
Proof.
  intros Hd Hlo H. pose proof (nearest_ge_double d y Hd H) as Hn.
  destruct (round_cases y) as [[-> Hy]|[[-> Hy]|[-> _]]];
    [reflexivity|exfalso; lra|now apply ge_Fin].
Qed.

Lemma round_le_double (d y : Q) :
  double d -> d < pow2 1024 -> y <= d -> (Fin d >=? round y)%num = true.
Proof.
  intros Hd Hhi H. pose proof (nearest_le_double d y Hd H) as Hn.
  destruct (round_cases y) as [[-> Hy]|[[-> Hy]|[-> _]]];
    [exfalso; lra|reflexivity|now apply ge_Fin].
Qed.


Lemma double_opp (d : Q) : double d -> double (- d).
Proof.
  intros (m & e & H & Hm & He). exists (- m)%Z, e. repeat split.
  - rewrite H, inject_Z_opp. ring.
  - lia.
  - exact He.
Qed.

Lemma binary64_bounds (d : Q) :
  binary64 (Fin d) -> double d /\ - pow2 1024 < d /\ d < pow2 1024.
Proof. intros [Hd Hb]. split; [exact Hd|]. qabs d; split; lra. Qed.

Lemma binary64_neg (a : number) : binary64 a -> binary64 (num_neg a).
Proof.
  destruct a as [| |d|]; cbn [binary64 num_neg]; auto.
  intros [Hd Hb]. split; [now apply double_opp|]. now rewrite Qabs_opp.
Qed.

(** A binary64 value rounds to itself. *)
Lemma round_id (d : Q) :
  binary64 (Fin d) -> round d = Fin (nearest d) /\ nearest d == d.
Proof.
  intros Hb. destruct (binary64_bounds d Hb) as (Hd & Hlo & Hhi).
  pose proof (nearest_id d Hd) as E.
  destruct (round_cases d) as [[_ H]|[[_ H]|[-> _]]]; [exfalso; lra|exfalso; lra|].
  now split.
Qed.


Lemma MAX_VALUE_binary64 : binary64 MAX_VALUE.
Proof.
  unfold MAX_VALUE, MAX_VALUE_Q. cbn [binary64]. split.
  - exists (2 ^ 53 - 1)%Z, 971%Z. split; [|split; lia].
    rewrite inject_Z_mult, pow2_Z by lia. reflexivity.
  - rewrite Qabs_pos.
    + rewrite pow2_Z by lia. rewrite <- Zlt_Qlt. reflexivity.
    + change 0 with (inject_Z 0). rewrite <- Zle_Qle. discriminate.
Qed.

(** *** Subtraction of the window size *)

Lemma sub_Fin (t tau : Q) : (Fin t - Fin tau)%num = round (t - tau).
Proof. reflexivity. Qed.

Lemma sub_not_NaN (t : number) (tau : Q) :
  isNaN t = false -> isNaN (t - Fin tau)%num = false.
Proof.
  destruct t as [| |x|]; cbn [isNaN]; try discriminate; try reflexivity.
  intros _. rewrite sub_Fin. apply round_not_NaN.
Qed.

(** The threshold [timestamp - TAU] grows with the timestamp. *)
Lemma sub_mono (t t' : number) (tau : Q) :
  (t >=? t')%num = true -> (t - Fin tau >=? t' - Fin tau)%num = true.
Proof.
  destruct t as [| |x|], t' as [| |y|]; try discriminate; try reflexivity.
  - rewrite sub_Fin. change (NegInfinity - Fin tau)%num with NegInfinity.
    intros _. pose proof (round_not_NaN (x - tau)). now destruct (round (x - tau)).
  - rewrite ge_Fin, !sub_Fin. intros H. apply round_mono. lra.
  - rewrite sub_Fin. change (Infinity - Fin tau)%num with Infinity.
    intros _. pose proof (round_not_NaN (y - tau)). now destruct (round (y - tau)).
Qed.

(** With a window size that is zero or negative, the threshold is not
    below the timestamp. *)
Lemma sub_nonpositive (t : number) (tau : Q) :
  binary64 t -> isNaN t = false -> tau <= 0 -> (t - Fin tau >=? t)%num = true.
Proof.
  destruct t as [| |x|]; cbn [isNaN]; try discriminate; try reflexivity.
  intros Hb _ Htau. destruct (binary64_bounds x Hb) as (Hd & Hlo & _).
  rewrite sub_Fin. apply round_ge_double; [exact Hd|exact Hlo|lra].
Qed.

(** ** The rescan *)

Lemma expired_live (x : number) (o : observation) : expired x o = negb (live x o).
Proof. unfold live. now rewrite negb_involutive. Qed.

(** The rescan folds the live observations and counts the expired ones. *)
Lemma visit_expired (ts tau : number) (acc : rescan) (o : observation) :
  visit ts tau acc o =
  if expired (ts - tau) o
  then mkRescan (r_sum acc) (r_min acc) (r_max acc) (S (newStartIndex acc))
  else mkRescan (r_sum acc + cost o) (Math_min (r_min acc) (cost o))
         (Math_max (r_max acc) (cost o)) (newStartIndex acc).
Proof. reflexivity. Qed.

Lemma fold_visit (ts tau : number) (l : list observation) : forall acc : rescan,
  fold_left (visit ts tau) l acc =
  mkRescan (fold_left num_add (map cost (filter (live (ts - tau)) l)) (r_sum acc))
           (fold_left Math_min (map cost (filter (live (ts - tau)) l)) (r_min acc))
           (fold_left Math_max (map cost (filter (live (ts - tau)) l)) (r_max acc))
           (newStartIndex acc + List.length (filter (expired (ts - tau)) l)).
Proof.
  induction l as [|o l IH]; intros acc; cbn [map fold_left filter].
  - cbn [List.length]. rewrite Nat.add_0_r. now destruct acc.
  - rewrite IH, visit_expired.
    replace (live (ts - tau) o) with (negb (expired (ts - tau) o)) by reflexivity.
    destruct (expired (ts - tau) o);
      cbn [negb r_sum r_min r_max newStartIndex map fold_left List.length].
    + f_equal. lia.
    + reflexivity.
Qed.

Lemma newStartIndex_bound (t tau : number) (l : list observation) : forall acc,
  (newStartIndex (fold_left (visit t tau) l acc) <= newStartIndex acc + List.length l)%nat.
Proof.
  induction l as [|o l IH]; intros acc; cbn [fold_left List.length]; [lia|].
  specialize (IH (visit t tau acc o)).
  assert (newStartIndex (visit t tau acc o) <= S (newStartIndex acc))%nat.
  { unfold visit. destruct (num_ge _ _); cbn [newStartIndex]; lia. }
  lia.
Qed.

(** ** Sorted buffers *)

Lemma nondecreasing_tail (a : Q) (l : list Q) :
  nondecreasing (a :: l) = true -> nondecreasing l = true.
Proof.
  destruct l as [|b l]; [reflexivity|].
  cbn [nondecreasing]. intros H. now apply andb_true_iff in H.
Qed.

Lemma nondecreasing_app_l (l1 l2 : list Q) :
  nondecreasing (l1 ++ l2) = true -> nondecreasing l1 = true.
Proof.
  induction l1 as [|a l1 IH]; intros H; [reflexivity|].
  destruct l1 as [|b l1]; [reflexivity|].
  cbn [app nondecreasing] in H |- *. apply andb_true_iff in H.
  destruct H as [Hab H]. rewrite Hab. cbn [andb]. now apply IH.
Qed.

Lemma nondecreasing_last2 (a b : Q) (l : list Q) :
  nondecreasing (l ++ [a; b]) = true -> a <= b.
Proof.
  induction l as [|x l IH]; intros H.
  - cbn in H. rewrite andb_true_r in H. now apply Qle_bool_iff.
  - apply IH. destruct l as [|y l]; cbn [app nondecreasing] in H;
      apply andb_true_iff in H; apply H.
Qed.

Lemma ascending_tail (a : number) (l : list number) :
  ascending (a :: l) = true -> ascending l = true.
Proof.
  destruct l as [|b l]; [reflexivity|].
  cbn [ascending]. intros H. now apply andb_true_iff in H.
Qed.

Lemma ascending_head (a : number) (l : list number) :
  ascending (a :: l) = true -> forall x, In x l -> num_ge x a = true.
Proof.
  revert a. induction l as [|b l IH]; intros a H x Hx; [destruct Hx|].
  cbn [ascending] in H. apply andb_true_iff in H. destruct H as [Hab Hl].
  destruct Hx as [<-|Hx]; [exact Hab|].
  apply num_ge_trans with b; [|exact Hab]. now apply IH.
Qed.

Lemma ascending_skipn (k : nat) : forall l : list number,
  ascending l = true -> ascending (skipn k l) = true.
Proof.
  induction k as [|k IH]; intros l H; [exact H|].
  destruct l as [|a l]; [reflexivity|].
  cbn [skipn]. apply IH. now apply ascending_tail with a.
Qed.

Lemma ascending_app_l (l1 l2 : list number) :
  ascending (l1 ++ l2) = true -> ascending l1 = true.
Proof.
  induction l1 as [|a l1 IH]; intros H; [reflexivity|].
  destruct l1 as [|b l1]; [reflexivity|].
  cbn [app ascending] in H |- *. apply andb_true_iff in H.
  destruct H as [Hab H]. rewrite Hab. cbn [andb]. now apply IH.
Qed.

Lemma ascending_last2 (a b : number) (l : list number) :
  ascending (l ++ [a; b]) = true -> num_ge b a = true.
Proof.
  induction l as [|x l IH]; intros H.
  - cbn in H. now rewrite andb_true_r in H.
  - apply IH. destruct l as [|y l]; cbn [app ascending] in H;
      apply andb_true_iff in H; apply H.
Qed.

Lemma ascending_cons (a b : number) (l : list number) :
  ascending (a :: b :: l) = num_ge b a && ascending (b :: l).
Proof. reflexivity. Qed.

(** Rounding keeps the order of the timestamps. *)
Lemma ascending_ob (l : list (Q * Q)) :
  nondecreasing (map fst l) = true ->
  ascending (map timestamp (map ob l)) = true.
Proof.
  induction l as [|p l IH]; intros H; [reflexivity|].
  destruct l as [|q l]; [reflexivity|].
  cbn [map nondecreasing] in H. apply andb_true_iff in H. destruct H as [Hpq H].
  specialize (IH H). cbn [map] in IH |- *.
  rewrite ascending_cons, IH, andb_true_r.
  cbn [ob timestamp]. apply round_mono. now apply Qle_bool_iff.
Qed.

Lemma timestamp_ob (p : Q * Q) : timestamp (ob p) = round (fst p).
Proof. reflexivity. Qed.

Lemma cost_ob (p : Q * Q) : cost (ob p) = round (snd p).
Proof. reflexivity. Qed.

Lemma ob_inj (p : Q * Q) : Observation (fst (inj p)) (snd (inj p)) = ob p.
Proof. reflexivity. Qed.

Section SortedBuffer.

(** [x] is the value of [timestamp - this.TAU] in a call of [put]. *)
Variable x : number.

Lemma filter_live_all (l : list observation) :
  (forall o, In o l -> live x o = true) ->
  filter (live x) l = l /\ filter (expired x) l = [].
Proof.
  induction l as [|o l IH]; intros H; [now split|].
  cbn [filter]. rewrite expired_live.
  rewrite (H o (or_introl eq_refl)). cbn [negb].
  destruct IH as [-> ->]; [|now split].
  intros q Hq. apply H. now right.
Qed.

(** An observation that is not older than a live one is live. *)
Lemma live_later (o q : observation) :
  live x o = true -> num_ge (timestamp q) (timestamp o) = true -> live x q = true.
Proof.
  unfold live, expired. rewrite !negb_true_iff. intros Ho Hq.
  destruct (num_ge x (timestamp q)) eqn:E; [|reflexivity].
  now rewrite (num_ge_trans _ _ _ E Hq) in Ho.
Qed.

(** Once the head of a sorted buffer is live, every observation is. *)
Lemma head_live_all (o : observation) (l : list observation) :
  ascending (map timestamp (o :: l)) = true ->
  live x o = true ->
  forall q, In q (o :: l) -> live x q = true.
Proof.
  intros H Ho q [<-|Hq]; [exact Ho|].
  apply live_later with o; [exact Ho|].
  apply (ascending_head _ _ H). now apply in_map.
Qed.

(** In a sorted buffer the expired observations are a prefix: dropping as
    many elements as there are expired ones keeps exactly the live ones. *)
Lemma sorted_split (l : list observation) :
  ascending (map timestamp l) = true ->
  skipn (List.length (filter (expired x) l)) l = filter (live x) l /\
  firstn (List.length (filter (expired x) l)) l = filter (expired x) l.
Proof.
  induction l as [|o l IH]; intros H; [now split|].
  destruct (live x o) eqn:Ho.
  - destruct (filter_live_all (o :: l)) as [-> ->]; [|now split].
    now apply head_live_all.
  - cbn [filter]. rewrite expired_live, Ho. cbn [negb List.length skipn firstn].
    destruct IH as [-> ->]; [|now split].
    now apply ascending_tail with (timestamp o).
Qed.

Lemma filter_split (l : list observation) :
  ascending (map timestamp l) = true ->
  l = filter (expired x) l ++ filter (live x) l.
Proof.
  intros H. destruct (sorted_split l H) as [E1 E2].
  rewrite <- E1, <- E2 at 1. symmetry. apply firstn_skipn.
Qed.

Lemma filter_live_sorted_app (l r : list observation) :
  ascending (map timestamp (l ++ r)) = true ->
  ascending (map timestamp (filter (live x) l ++ r)) = true.
Proof.
  intros H.
  assert (Hl : ascending (map timestamp l) = true).
  { rewrite map_app in H. now apply ascending_app_l in H. }
  destruct (sorted_split l Hl) as [E _]. rewrite <- E. clear E.
  set (k := List.length (filter (expired x) l)).
  assert (Hk : (k <= List.length l)%nat) by apply filter_length_le.
  replace (skipn k l ++ r) with (skipn k (l ++ r)).
  - rewrite <- skipn_map. now apply ascending_skipn.
  - rewrite skipn_app. replace (k - List.length l)%nat with 0%nat by lia.
    reflexivity.
Qed.

Lemma filter_live_expired_length (l : list observation) :
  (List.length (filter (live x) l) + List.length (filter (expired x) l))%nat =
  List.length l.
Proof.
  induction l as [|o l IH]; [reflexivity|].
  cbn [filter]. rewrite expired_live.
  destruct (live x o); cbn [negb List.length]; lia.
Qed.

End SortedBuffer.

(** A later threshold drops what an earlier one dropped. *)
Lemma filter_filter_live (x' x : number) (l : list observation) :
  num_ge x x' = true ->
  filter (live x) (filter (live x') l) = filter (live x) l.
Proof.
  intros Hx. induction l as [|o l IH]; [reflexivity|].
  cbn [filter]. destruct (live x' o) eqn:E'; cbn [filter].
  - now rewrite IH.
  - rewrite IH. replace (live x o) with false; [reflexivity|].
    symmetry. unfold live, expired in *. apply negb_false_iff in E'.
    apply negb_false_iff. now apply num_ge_trans with x'.
Qed.

(** ** [put] on a sorted buffer *)

Section PutWindow.

Variables (tau ts c : number) (w : list observation).
Hypothesis sorted : ascending (map timestamp (w ++ [Observation ts c])) = true.

(** The test of [put] on the first observation decides for all of them. *)
Lemma first_live_all :
  num_lt (ts - tau) (timestamp (hd (Observation ts c) (w ++ [Observation ts c]))) = true ->
  forall q, In q (w ++ [Observation ts c]) -> live (ts - tau) q = true.
Proof.
  intros Hhd.
  assert (Hl : live (ts - tau) (hd (Observation ts c) (w ++ [Observation ts c])) = true).
  { unfold live, expired. now rewrite (num_lt_not_ge _ _ Hhd). }
  destruct w as [|o w']; cbn [hd app] in *.
  - intros q [<-|[]]. exact Hl.
  - now apply head_live_all.
Qed.

(** What [put] does to a sorted buffer: it keeps the live observations, and
    the three aggregates are the folds over them. *)
Lemma put_window :
  put (window tau w) ts c =
  window tau (filter (live (ts - tau)) (w ++ [Observation ts c])).
Proof.
  unfold put. cbn [window TAU observations sum min max].
  destruct (num_lt _ _) eqn:Hhd.
  - destruct (filter_live_all _ _ (first_live_all Hhd)) as [-> _].
    unfold window. now rewrite map_app, !fold_left_app.
  - unfold forEach. rewrite fold_visit.
    cbn [r_sum r_min r_max newStartIndex Nat.add].
    destruct (sorted_split (ts - tau) _ sorted) as [-> _]. reflexivity.
Qed.

Lemma evicted_window :
  evicted (window tau w) ts c =
  filter (expired (ts - tau)) (w ++ [Observation ts c]).
Proof.
  unfold evicted. cbn [window TAU observations].
  destruct (num_lt _ _) eqn:Hhd.
  - now destruct (filter_live_all _ _ (first_live_all Hhd)) as [_ ->].
  - unfold forEach. rewrite fold_visit.
    cbn [r_sum r_min r_max newStartIndex Nat.add].
    now destruct (sorted_split (ts - tau) _ sorted) as [_ ->].
Qed.

End PutWindow.

Lemma puts_cons (s : RollingTime) (p : number * number) (l : list (number * number)) :
  puts s (p :: l) = puts (put s (fst p) (snd p)) l.
Proof. reflexivity. Qed.

Lemma puts_snoc (s : RollingTime) (p : number * number) (l : list (number * number)) :
  puts s (l ++ [p]) = put (puts s l) (fst p) (snd p).
Proof. unfold puts. now rewrite fold_left_app. Qed.

Lemma puts_inj_cons (s : RollingTime) (p : Q * Q) (l : list (Q * Q)) :
  puts s (map inj (p :: l)) = puts (put s (timestamp (ob p)) (cost (ob p))) (map inj l).
Proof. reflexivity. Qed.

Lemma puts_inj_snoc (s : RollingTime) (p : Q * Q) (l : list (Q * Q)) :
  puts s (map inj (l ++ [p])) = put (puts s (map inj l)) (timestamp (ob p)) (cost (ob p)).
Proof. rewrite map_app. apply puts_snoc. Qed.

Lemma constructor_window (tau : number) : constructor tau = window tau [].
Proof. reflexivity. Qed.

Lemma put_window_ob (tau : number) (w : list observation) (p : Q * Q) :
  ascending (map timestamp (w ++ [ob p])) = true ->
  put (window tau w) (timestamp (ob p)) (cost (ob p)) =
  window tau (filter (live (timestamp (ob p) - tau)) (w ++ [ob p])).
Proof. intros H. now apply put_window. Qed.

Lemma evicted_window_ob (tau : number) (w : list observation) (p : Q * Q) :
  ascending (map timestamp (w ++ [ob p])) = true ->
  evicted (window tau w) (timestamp (ob p)) (cost (ob p)) =
  filter (expired (timestamp (ob p) - tau)) (w ++ [ob p]).
Proof. intros H. now apply evicted_window. Qed.

(** A run of [put] with non-decreasing timestamps keeps the instance of the
    form [window tau w], with [w] sorted and drawn from the observations put
    so far. *)
Lemma puts_window (tau : number) (l : list (Q * Q)) : forall (w r : list observation),
  ascending (map timestamp (w ++ map ob l ++ r)) = true ->
  exists w',
    puts (window tau w) (map inj l) = window tau w' /\
    ascending (map timestamp (w' ++ r)) = true /\
    incl w' (w ++ map ob l).
Proof.
  induction l as [|p l IH]; intros w r H.
  - exists w. cbn [map app] in *. rewrite app_nil_r.
    repeat split; [exact H|apply incl_refl].
  - assert (H' : ascending (map timestamp ((w ++ [ob p]) ++ map ob l ++ r)) = true).
    { now rewrite <- app_assoc. }
    assert (Hp : ascending (map timestamp (w ++ [ob p])) = true).
    { rewrite map_app in H'. now apply ascending_app_l in H'. }
    rewrite puts_inj_cons, (put_window_ob _ _ _ Hp).
    destruct (IH (filter (live (timestamp (ob p) - tau)) (w ++ [ob p])) r)
      as (w' & E & Hs & Hi).
    + now apply filter_live_sorted_app.
    + exists w'. repeat split; [exact E|exact Hs|].
      intros q Hq. apply Hi in Hq. apply in_app_or in Hq.
      cbn [map].
      replace (w ++ ob p :: map ob l) with ((w ++ [ob p]) ++ map ob l)
        by now rewrite <- app_assoc.
      apply in_or_app. destruct Hq as [Hq|Hq]; [left|now right].
      now apply filter_In in Hq.
Qed.

Lemma puts_fresh (tau : number) (l r : list (Q * Q)) :
  nondecreasing (map fst (l ++ r)) = true ->
  exists w,
    puts (constructor tau) (map inj l) = window tau w /\
    ascending (map timestamp (w ++ map ob r)) = true /\
    incl w (map ob l).
Proof.
  intros H. rewrite constructor_window. apply puts_window.
  cbn [app]. rewrite <- map_app. now apply ascending_ob.
Qed.

(** One more [put] after a sorted run, in terms of [window]. *)
Lemma put_after_puts (tau : number) (l : list (Q * Q)) (p : Q * Q) :
  nondecreasing (map fst (l ++ [p])) = true ->
  let x := (timestamp (ob p) - tau)%num in
  exists w,
    puts (constructor tau) (map inj l) = window tau w /\
    incl w (map ob l) /\
    w ++ [ob p] = filter (expired x) (w ++ [ob p]) ++ filter (live x) (w ++ [ob p]) /\
    put (window tau w) (timestamp (ob p)) (cost (ob p)) =
      window tau (filter (live x) (w ++ [ob p])) /\
    evicted (window tau w) (timestamp (ob p)) (cost (ob p)) =
      filter (expired x) (w ++ [ob p]).
Proof.
  intros H x. destruct (puts_fresh tau l [p] H) as (w & E & Hs & Hi).
  cbn [map] in Hs.
  exists w. repeat split; [exact E|exact Hi| | |].
  - now apply filter_split.
  - now apply put_window_ob.
  - now apply evicted_window_ob.
Qed.

(** Every observation of a run of [inj] has binary64 fields, none [NaN]. *)
Lemma ob_binary64 (p : Q * Q) :
  binary64 (timestamp (ob p)) /\ isNaN (timestamp (ob p)) = false /\
  binary64 (cost (ob p)) /\ isNaN (cost (ob p)) = false.
Proof.
  cbn [ob timestamp cost].
  split; [apply round_binary64|]. split; [apply round_not_NaN|].
  split; [apply round_binary64|apply round_not_NaN].
Qed.

Lemma In_map_ob (o : observation) (l : list (Q * Q)) :
  In o (map ob l) -> exists p, o = ob p /\ In p l.
Proof.
  intros H. apply in_map_iff in H. destruct H as (p & <- & Hp). now exists p.
Qed.

(** ** The folds of [window] *)

Lemma Math_min_spec (a b : number) :
  isNaN a = false -> isNaN b = false ->
  isNaN (Math_min a b) = false /\
  num_ge a (Math_min a b) = true /\ num_ge b (Math_min a b) = true /\
  (Math_min a b = a \/ Math_min a b = b).
Proof.
  intros Ha Hb.
  assert (E : Math_min a b = if num_lt b a then b else a).
  { destruct a, b; try discriminate; reflexivity. }
  rewrite E. destruct (num_lt b a) eqn:L.
  - repeat split; [exact Hb| |now apply num_ge_refl|now right].
    destruct a as [| |x|], b as [| |y|]; try discriminate; try reflexivity.
    apply ge_Fin. apply lt_Fin in L. lra.
  - repeat split; [exact Ha|now apply num_ge_refl| |now left].
    destruct a as [| |x|], b as [| |y|]; try discriminate; try reflexivity.
    apply ge_Fin. cbn [num_lt] in L. now apply Qltb_false in L.
Qed.

Lemma Math_max_spec (a b : number) :
  isNaN a = false -> isNaN b = false ->
  isNaN (Math_max a b) = false /\
  num_ge (Math_max a b) a = true /\ num_ge (Math_max a b) b = true /\
  (Math_max a b = a \/ Math_max a b = b).
Proof.
  intros Ha Hb.
  assert (E : Math_max a b = if num_lt a b then b else a).
  { destruct a, b; try discriminate; reflexivity. }
  rewrite E. destruct (num_lt a b) eqn:L.
  - repeat split; [exact Hb| |now apply num_ge_refl|now right].
    destruct a as [| |x|], b as [| |y|]; try discriminate; try reflexivity.
    apply ge_Fin. apply lt_Fin in L. lra.
  - repeat split; [exact Ha|now apply num_ge_refl| |now left].
    destruct a as [| |x|], b as [| |y|]; try discriminate; try reflexivity.
    apply ge_Fin. cbn [num_lt] in L. now apply Qltb_false in L.
Qed.

Lemma fold_min_spec (l : list number) : forall a,
  isNaN a = false -> (forall v, In v l -> isNaN v = false) ->
  let m := fold_left Math_min l a in
  isNaN m = false /\ num_ge a m = true /\
  (forall v, In v l -> num_ge v m = true) /\ (m = a \/ In m l).
Proof.
  induction l as [|v l IH]; intros a Ha Hl; cbn [fold_left].
  - repeat split; [exact Ha|now apply num_ge_refl|intros v []|now left].
  - destruct (Math_min_spec a v Ha (Hl v (or_introl eq_refl))) as (Hn & H1 & H2 & Hsel).
    destruct (IH (Math_min a v) Hn) as (Hm & H3 & H4 & H5).
    { intros u Hu. apply Hl. now right. }
    cbn zeta in *. repeat split.
    + exact Hm.
    + now apply num_ge_trans with (Math_min a v).
    + intros u [<-|Hu]; [now apply num_ge_trans with (Math_min a v)|now apply H4].
    + destruct H5 as [H5|H5]; [|right; now right].
      rewrite H5. destruct Hsel as [->| ->]; [now left|right; now left].
Qed.

Lemma fold_max_spec (l : list number) : forall a,
  isNaN a = false -> (forall v, In v l -> isNaN v = false) ->
  let m := fold_left Math_max l a in
  isNaN m = false /\ num_ge m a = true /\
  (forall v, In v l -> num_ge m v = true) /\ (m = a \/ In m l).
Proof.
  induction l as [|v l IH]; intros a Ha Hl; cbn [fold_left].
  - repeat split; [exact Ha|now apply num_ge_refl|intros v []|now left].
  - destruct (Math_max_spec a v Ha (Hl v (or_introl eq_refl))) as (Hn & H1 & H2 & Hsel).
    destruct (IH (Math_max a v) Hn) as (Hm & H3 & H4 & H5).
    { intros u Hu. apply Hl. now right. }
    cbn zeta in *. repeat split.
    + exact Hm.
    + now apply num_ge_trans with (Math_max a v).
    + intros u [<-|Hu]; [now apply num_ge_trans with (Math_max a v)|now apply H4].
    + destruct H5 as [H5|H5]; [|right; now right].
      rewrite H5. destruct Hsel as [->| ->]; [now left|right; now left].
Qed.

(** ** Ages against the threshold of [put] *)

(** An observation whose exact age is [TAU] is expired: [timestamp - TAU]
    is then a binary64 value, and rounds to itself. *)
Lemma boundary_expired (t u : number) (tau : Q) :
  binary64 u ->
  (exact_sub t u === Fin tau)%num = true ->
  (t - Fin tau >=? u)%num = true.
Proof.
  destruct t as [| |x|], u as [| |y|]; try discriminate.
  intros Hb E. destruct (binary64_bounds y Hb) as (Hd & Hlo & _).
  cbn [exact_sub exact_add num_neg] in E. apply strict_eq_Fin in E.
  rewrite sub_Fin. apply round_ge_double; [exact Hd|exact Hlo|lra].
Qed.

(** An observation the test of [put] keeps has an exact age below [TAU]:
    rounding [timestamp - TAU] does not cross the timestamp of the
    observation. *)
Lemma live_exact_age (t u : number) (tau : Q) :
  binary64 u -> isNaN u = false -> isNaN t = false ->
  (t - Fin tau >=? u)%num = false ->
  (exact_sub t u <? Fin tau)%num = true.
Proof.
  destruct t as [| |x|], u as [| |y|]; try discriminate; try reflexivity.
  - rewrite sub_Fin. intros _ _ _ H.
    pose proof (round_not_NaN (x - tau)) as Hn.
    now destruct (round (x - tau)).
  - intros Hb _ _ H. destruct (binary64_bounds y Hb) as (Hd & Hlo & _).
    cbn [exact_sub exact_add num_neg]. apply lt_Fin.
    apply Qnot_le_lt. intros C. rewrite sub_Fin in H.
    rewrite round_ge_double in H; [discriminate|exact Hd|exact Hlo|lra].
Qed.

(** When [timestamp - TAU] is computed without error, an expired
    observation has an exact age of [TAU] or more. *)
Lemma expired_exact_age (x tau : Q) (u : number) :
  (Fin x - Fin tau === exact_sub (Fin x) (Fin tau))%num = true ->
  (Fin x - Fin tau >=? u)%num = true ->
  (exact_sub (Fin x) u >=? Fin tau)%num = true.
Proof.
  rewrite sub_Fin.
  destruct (round (x - tau)) as [| |v|] eqn:E; try discriminate.
  destruct u as [| |y|]; try discriminate; try reflexivity.
  cbn [exact_sub exact_add num_neg].
  rewrite strict_eq_Fin, !ge_Fin. intros Ev H. lra.
Qed.



Lemma advances_live (t c : number) (tau : number) :
  (t - tau <? t)%num = true -> live (t - tau) (Observation t c) = true.
Proof.
  intros H. unfold live, expired. cbn [timestamp].
  now rewrite (num_lt_not_ge _ _ H).
Qed.


(** After a sorted run, what one more [put] retains has an exact age below
    [TAU]. *)
Lemma retained_exact_age (tau : Q) (l : list (Q * Q)) (p : Q * Q) (w : list observation) :
  incl w (map ob l) ->
  forall o, In o (filter (live (timestamp (ob p) - Fin tau)) (w ++ [ob p])) ->
    (exact_sub (timestamp (ob p)) (timestamp o) <? Fin tau)%num = true.
Proof.
  intros Hi o Ho. apply filter_In in Ho. destruct Ho as [Hin Hl].
  assert (Hb : binary64 (timestamp o) /\ isNaN (timestamp o) = false).
  { apply in_app_or in Hin. destruct Hin as [Hin|[<-|[]]].
    - destruct (In_map_ob o l (Hi o Hin)) as (q & -> & _).
      destruct (ob_binary64 q) as (Hb & Hn & _). now split.
    - destruct (ob_binary64 p) as (Hb & Hn & _). now split. }
  destruct Hb as [Hb Hn]. apply live_exact_age; [exact Hb|exact Hn| |].
  - destruct (ob_binary64 p) as (_ & Hp & _). exact Hp.
  - unfold live in Hl. apply negb_true_iff in Hl. exact Hl.
Qed.

(** ** Claims on [put] *)

(** C3, as stated, fails.  With [TAU = 0.1], after [put(99.9, 1)] the call
    [put(100, 2)] evicts the first observation: [100 - 0.1] rounds to the
    binary64 value of [99.9].  The age of that observation is below [TAU],
    taken exactly or as the program subtracts. *)
Lemma evicted_within_window_duration :
  let tau := round (1 # 10) in
  let first := ob (999 # 10, 1) in
  let new := ob (100, 2) in
  let s := puts (constructor tau) (map inj [(999 # 10, 1)]) in
  nondecreasing (map fst [(999 # 10, 1); (100, 2)]) = true /\
  (Fin 0 <? tau)%num = true /\
  observations s = [first] /\
  evicted s (timestamp new) (cost new) = [first] /\
  observations (put s (timestamp new) (cost new)) = [new] /\
  (exact_sub (timestamp new) (timestamp first) >=? tau)%num = false /\
  (timestamp new - timestamp first >=? tau)%num = false.
Proof. vm_compute. repeat split. Qed.

(** C3, as amended.  After a run of [put] with non-decreasing timestamps,
    one more [put] at timestamp [t] splits the pushed buffer into the
    evicted prefix and the retained rest.  Every retained observation [o]
    has [t - o.timestamp < TAU], the difference taken exactly.  Every
    evicted one has [o.timestamp <= t - TAU] for the difference [t - TAU]
    as the program computes it, rounded to binary64; when [t] is finite and
    that difference is computed without error, this is
    [t - o.timestamp >= TAU]. *)
Theorem put_window_membership (tau : Q) (l : list (Q * Q)) (p : Q * Q) :
  nondecreasing (map fst (l ++ [p])) = true ->
  let s := puts (constructor (Fin tau)) (map inj l) in
  let t := timestamp (ob p) in
  let s' := put s t (cost (ob p)) in
  let out := evicted s t (cost (ob p)) in
  observations s ++ [ob p] = out ++ observations s' /\
  (forall o, In o (observations s') ->
     (exact_sub t (timestamp o) <? Fin tau)%num = true) /\
  (forall o, In o out -> (t - Fin tau >=? timestamp o)%num = true) /\
  (isFinite t = true ->
   (t - Fin tau === exact_sub t (Fin tau))%num = true ->
   forall o, In o out -> (exact_sub t (timestamp o) >=? Fin tau)%num = true).
Proof.
  intros H s t s' out. subst s s' out t.
  destruct (put_after_puts (Fin tau) l p H) as (w & -> & Hi & Hsplit & -> & ->).
  cbn [window observations]. split; [exact Hsplit|]. split; [|split].
  - now apply retained_exact_age with l.
  - intros o Ho. apply filter_In in Ho. now destruct Ho as [_ Ho].
  - intros Hfin Hex o Ho. apply filter_In in Ho. destruct Ho as [_ Ho].
    unfold expired in Ho.
    destruct (timestamp (ob p)) as [| |x|]; try discriminate Hfin.
    now apply expired_exact_age.
Qed.

Lemma put_window_membership_witness :
  let l := [(1, 1); (5, 5); (10, 10)] in
  let p := (15, 15) in
  let s := puts (constructor (Fin 10)) (map inj l) in
  let t := timestamp (ob p) in
  let s' := put s t (cost (ob p)) in
  let out := evicted s t (cost (ob p)) in
  observations s ++ [ob p] = out ++ observations s' /\
  (forall o, In o (observations s') ->
     (exact_sub t (timestamp o) <? Fin 10)%num = true) /\
  (forall o, In o out -> (t - Fin 10 >=? timestamp o)%num = true) /\
  (isFinite t = true ->
   (t - Fin 10 === exact_sub t (Fin 10))%num = true ->
   forall o, In o out -> (exact_sub t (timestamp o) >=? Fin 10)%num = true).
Proof.
  apply (@put_window_membership 10 [(1, 1); (5, 5); (10, 10)] (15, 15)).
  reflexivity.
Defined.

(** C2, as stated, fails when the age is the one the program computes.
    With [TAU = 1], after [put(0.2, 1)] and [put(1.2, 2)] the difference
    [1.2 - 0.2] of the two timestamps is [1] in binary64, which is [TAU],
    and the first observation is retained: [1.2 - 1] rounds to a value
    below the binary64 value of [0.2]. *)
Lemma retained_at_computed_boundary :
  let first := ob (2 # 10, 1) in
  let new := ob (12 # 10, 2) in
  let s := puts (constructor (Fin 1)) (map inj [(2 # 10, 1)]) in
  let s' := put s (timestamp new) (cost new) in
  nondecreasing (map fst [(2 # 10, 1); (12 # 10, 2)]) = true /\
  (timestamp new - timestamp first === Fin 1)%num = true /\
  observations s' = [first; new] /\
  evicted s (timestamp new) (cost new) = [].
Proof. vm_compute. repeat split. Qed.

(** C2, as amended (boundary).  After a run of [put] with non-decreasing
    timestamps, one more [put] at timestamp [t] evicts every observation
    whose age [t - o.timestamp], taken exactly, is [TAU]; an observation is
    retained only if that exact age is below [TAU]; and every observation
    pushed is either evicted or retained. *)
Theorem put_boundary (tau : Q) (l : list (Q * Q)) (p : Q * Q) :
  nondecreasing (map fst (l ++ [p])) = true ->
  let s := puts (constructor (Fin tau)) (map inj l) in
  let t := timestamp (ob p) in
  let s' := put s t (cost (ob p)) in
  let out := evicted s t (cost (ob p)) in
  (forall o, In o (observations s ++ [ob p]) ->
     (exact_sub t (timestamp o) === Fin tau)%num = true ->
     In o out /\ ~ In o (observations s')) /\
  (forall o, In o (observations s') ->
     (exact_sub t (timestamp o) <? Fin tau)%num = true) /\
  observations s ++ [ob p] = out ++ observations s'.
Proof.
  intros H s t s' out. subst s s' out t.
  destruct (put_after_puts (Fin tau) l p H) as (w & -> & Hi & Hsplit & -> & ->).
  cbn [window observations].
  split; [|split; [now apply retained_exact_age with l|exact Hsplit]].
  intros o Hin Hage.
  assert (Hb : binary64 (timestamp o)).
  { apply in_app_or in Hin. destruct Hin as [Hin|[<-|[]]].
    - destruct (In_map_ob o l (Hi o Hin)) as (q & -> & _).
      destruct (ob_binary64 q) as (Hb & _). exact Hb.
    - destruct (ob_binary64 p) as (Hb & _). exact Hb. }
  pose proof (boundary_expired _ _ _ Hb Hage) as He.
  split.
  - apply filter_In. split; [exact Hin|exact He].
  - intros Ho. apply filter_In in Ho. destruct Ho as [_ Ho].
    unfold live, expired in Ho. rewrite He in Ho. discriminate Ho.
Qed.

Lemma put_boundary_witness :
  let l := [(1, 1); (5, 5); (10, 10)] in
  let p := (15, 15) in
  let s := puts (constructor (Fin 10)) (map inj l) in
  let t := timestamp (ob p) in
  let s' := put s t (cost (ob p)) in
  let out := evicted s t (cost (ob p)) in
  (forall o, In o (observations s ++ [ob p]) ->
     (exact_sub t (timestamp o) === Fin 10)%num = true ->
     In o out /\ ~ In o (observations s')) /\
  (forall o, In o (observations s') ->
     (exact_sub t (timestamp o) <? Fin 10)%num = true) /\
  observations s ++ [ob p] = out ++ observations s'.
Proof.
  apply (@put_boundary 10 [(1, 1); (5, 5); (10, 10)] (15, 15)).
  reflexivity.
Defined.

(** C6 (scenario).  With [TAU = 10], the calls [put(1, 1)], [put(5, 5)],
    [put(10, 10)], [put(15, 15)] and [put(30, 30)] give, after each call,
    the count, [sum], [min] and [max] of the scenario. *)
Theorem scenario_roll_window :
  trace (constructor (Fin 10))
    [(Fin 1, Fin 1); (Fin 5, Fin 5); (Fin 10, Fin 10); (Fin 15, Fin 15); (Fin 30, Fin 30)] =
  [(1%nat, Fin 1, Fin 1, Fin 1);
   (2%nat, Fin 6, Fin 1, Fin 5);
   (3%nat, Fin 16, Fin 1, Fin 10);
   (2%nat, Fin 25, Fin 10, Fin 15);
   (1%nat, Fin 30, Fin 30, Fin 30)].
Proof. vm_compute. reflexivity. Qed.

(** *** Observations spaced more than [TAU] apart *)









(** *** The observation just put is kept *)

Lemma TAU_put (s : RollingTime) (t c : number) : TAU (put s t c) = TAU s.
Proof. unfold put. now destruct (num_lt _ _). Qed.

Lemma TAU_puts (l : list (number * number)) : forall s, TAU (puts s l) = TAU s.
Proof.
  induction l as [|p l IH]; intros s; [reflexivity|].
  rewrite puts_cons, IH. apply TAU_put.
Qed.

(** When [timestamp - TAU < timestamp] as [put] computes it, the buffer
    ends with the observation just put. *)
Lemma put_keeps_new (s : RollingTime) (t c : number) :
  (t - TAU s <? t)%num = true ->
  exists front, observations (put s t c) = front ++ [Observation t c].
Proof.
  intros Hadv. unfold put.
  destruct (num_lt _ (timestamp _)); cbn [observations].
  - now exists (observations s).
  - unfold forEach. rewrite fold_left_app. cbn [fold_left].
    set (acc := fold_left _ (observations s) _).
    assert (Hk : (newStartIndex acc <= List.length (observations s))%nat).
    { subst acc. etransitivity; [apply newStartIndex_bound|]. cbn [newStartIndex]. lia. }
    rewrite visit_expired. unfold expired. cbn [timestamp].
    rewrite (num_lt_not_ge _ _ Hadv). cbn [newStartIndex].
    exists (skipn (newStartIndex acc) (observations s)).
    rewrite skipn_app.
    replace (newStartIndex acc - List.length (observations s))%nat with 0%nat by lia.
    reflexivity.
Qed.




(** *** Construction *)

Lemma put_nonpositive_tau (tau : Q) (t c : number) :
  binary64 t -> isNaN t = false -> tau <= 0 ->
  put (constructor (Fin tau)) t c = constructor (Fin tau).
Proof.
  intros Hb Hn H. rewrite constructor_window, put_window by reflexivity.
  cbn [app filter]. unfold live, expired. cbn [timestamp].
  now rewrite sub_nonpositive.
Qed.

Lemma puts_nonpositive_tau (tau : Q) (l : list (Q * Q)) :
  tau <= 0 -> puts (constructor (Fin tau)) (map inj l) = constructor (Fin tau).
Proof.
  intros H. induction l as [|p l IH]; [reflexivity|].
  rewrite puts_inj_cons, put_nonpositive_tau; [exact IH| | |exact H];
    now destruct (ob_binary64 p) as (? & ? & _).
Qed.

(** C5, as amended.  Construction with a [TAU] that is zero or negative does
    not fail: the constructor returns an instance that stores this [TAU]
    with an empty buffer and the reset aggregates; on such an instance every
    [put] evicts the observation it has just pushed, so the buffer stays
    empty. *)
Theorem nonpositive_tau_accepted (tau : Q) :
  tau <= 0 ->
  exists w,
    new_RollingTime (Fin tau) = Normal w /\
    w = mkRollingTime (Fin tau) [] (Fin 0) MAX_VALUE (Fin 0) /\
    forall l : list (Q * Q), puts w (map inj l) = w.
Proof.
  intros H. exists (constructor (Fin tau)). repeat split.
  intros l. now apply puts_nonpositive_tau.
Qed.

Lemma nonpositive_tau_accepted_witness :
  exists w,
    new_RollingTime (Fin (-1)) = Normal w /\
    w = mkRollingTime (Fin (-1)) [] (Fin 0) MAX_VALUE (Fin 0) /\
    forall l : list (Q * Q), puts w (map inj l) = w.
Proof. apply (@nonpositive_tau_accepted (-1)). vm_compute. discriminate. Defined.

(** C5, as stated, fails: [new RollingTime(0)] throws nothing and returns an
    instance. *)
Lemma new_RollingTime_zero_does_not_fail :
  0 <= 0 /\
  new_RollingTime (Fin 0) = Normal (constructor (Fin 0)) /\
  ~ exists e, new_RollingTime (Fin 0) = Throw e.
Proof.
  repeat split; [apply Qle_refl|].
  intros [e He]. discriminate He.
Qed.

(** *** Aggregates against the buffer *)

(** C1 fails on the code for a negative cost.  After [new RollingTime(10)]
    and [put(1, -5)] the buffer holds the single cost [-5]; [sum] and [min]
    are [-5], and [max] is [0], which is not the maximum of the buffered
    costs. *)
Theorem max_wrong_for_negative_cost :
  let s := puts (constructor (Fin 10)) (map inj [(1, -5)]) in
  nondecreasing (map fst [(1, -5)]) = true /\
  observations s = [Observation (Fin 1) (Fin (-5))] /\
  (sum s === exact_sum (observations s))%num = true /\
  is_min_cost (min s) (observations s) /\
  max s = Fin 0 /\
  ~ is_max_cost (max s) (observations s).
Proof.
  assert (E : puts (constructor (Fin 10)) (map inj [(1, -5)]) =
              mkRollingTime (Fin 10) [Observation (Fin 1) (Fin (-5))]
                (Fin (-5)) (Fin (-5)) (Fin 0)).
  { vm_compute. reflexivity. }
  cbv zeta. rewrite E. cbn [observations sum min max]. repeat split.
  - exists (Observation (Fin 1) (Fin (-5))). split; [now left|reflexivity].
  - intros o [<-|[]]. reflexivity.
  - intros [(o & [<-|[]] & H) _]. vm_compute in H. discriminate H.
Qed.

(** A single [put] on a fresh window, at a timestamp where [TAU] is not
    absorbed, with a binary64 cost between [0] and [Number.MAX_VALUE]: one
    observation, and [sum], [min] and [max] are that cost. *)
Lemma put_one_nonnegative (tau : Q) (t : number) (v : Q) :
  (t - Fin tau <? t)%num = true ->
  binary64 (Fin v) -> 0 <= v -> v <= MAX_VALUE_Q ->
  let s := put (constructor (Fin tau)) t (Fin v) in
  count s = 1%nat /\
  (sum s === Fin v)%num = true /\
  (min s === Fin v)%num = true /\
  (max s === Fin v)%num = true.
Proof.
  intros Hadv Hb H0 HM s. subst s.
  assert (Hs : ascending (map timestamp ([] ++ [Observation t (Fin v)])) = true)
    by reflexivity.
  rewrite constructor_window, (put_window _ _ _ _ Hs).
  cbn [app filter]. rewrite advances_live by exact Hadv.
  cbn [window count observations sum min max map List.length fold_left cost].
  split; [reflexivity|]. split; [|split].
  - change (Fin 0 + Fin v)%num with (round (0 + v)).
    rewrite (round_comp (0 + v) v) by ring.
    destruct (round_id v Hb) as [-> E]. now apply strict_eq_Fin.
  - unfold MAX_VALUE. cbn [Math_min num_lt].
    destruct (Qltb_spec v MAX_VALUE_Q); apply strict_eq_Fin; lra.
  - cbn [Math_max num_lt].
    destruct (Qltb_spec 0 v); apply strict_eq_Fin; lra.
Qed.

(** C4 fails on the code for a negative value.  After [new RollingTime(10)]
    and the single call [put(1, -5)]: count is 1, [sum] and [min] are [-5],
    and [max] is [0], not [-5]. *)
Theorem put_one_negative :
  let s := put (constructor (Fin 10)) (Fin 1) (Fin (-5)) in
  count s = 1%nat /\
  sum s = Fin (-5) /\
  min s = Fin (-5) /\
  max s = Fin 0 /\
  (max s === Fin (-5))%num = false.
Proof. vm_compute. repeat split. Qed.

(** ** Claims on the batch driver *)

Lemma parseObservation_malformed (line : string) (w : RollingTime) :
  malformed line = true -> exists err, parseObservation line w = (Some err, w).
Proof.
  unfold malformed, parseObservation. intros H.
  destruct (List.length (split tab line) =? 2)%nat eqn:E; cbn [negb orb] in *.
  - destruct (split tab line) as [|a [|b [|? ?]]]; try discriminate E.
    cbn [existsb nth] in *. rewrite orb_false_r in H.
    destruct (isNaN (Number a)); [eexists; reflexivity|].
    cbn [orb] in H. rewrite H. eexists; reflexivity.
  - eexists; reflexivity.
Qed.

Lemma on_line_malformed (st : reader) (line : string) :
  malformed line = true ->
  exists err,
    on_line st line =
    Normal (mkReader (S (curLine st)) (rtw st)
              (console st ++ [Error_on_line (S (curLine st)) err])).
Proof.
  intros H. destruct (parseObservation_malformed line (rtw st) H) as (err & E).
  exists err. unfold on_line. now rewrite E.
Qed.

Lemma on_line_curLine (st st' : reader) (line : string) :
  on_line st line = Normal st' -> curLine st' = S (curLine st).
Proof.
  unfold on_line. destruct (parseObservation line (rtw st)) as [[err|] w].
  - intros [= <-]. reflexivity.
  - destruct (printRtwState w); [|discriminate]. intros [= <-]. reflexivity.
Qed.

Lemma read_lines_curLine (lines : list string) : forall st st',
  read_lines st lines = Normal st' ->
  curLine st' = (curLine st + List.length lines)%nat.
Proof.
  induction lines as [|line rest IH]; intros st st'; cbn [read_lines List.length].
  - intros [= <-]. lia.
  - destruct (on_line st line) as [st1|] eqn:E; [|discriminate].
    intros H. apply IH in H. apply on_line_curLine in E. lia.
Qed.

Lemma read_lines_app (l1 l2 : list string) : forall st st',
  read_lines st l1 = Normal st' ->
  read_lines st (l1 ++ l2) = read_lines st' l2.
Proof.
  induction l1 as [|line rest IH]; intros st st'; cbn [read_lines app].
  - now intros [= <-].
  - destruct (on_line st line) as [st1|]; [|discriminate]. apply IH.
Qed.

(** C9 (malformed line).  When [main] reads a file, a line that does not
    split on the tab into two fields, or one of whose fields converts to
    [NaN], leaves the window as it was after the lines before it; the
    message written to the standard error carries the 1-based number of the
    line; the lines after it are then handled from that state. *)
Theorem malformed_line_skipped
  (args : arguments) (pre post : list string) (bad : string) (st : reader) :
  main args pre = Lines (Normal st) ->
  malformed bad = true ->
  exists err,
    let st' := mkReader (List.length pre + 1) (rtw st)
                 (console st ++ [Error_on_line (List.length pre + 1) err]) in
    main args (pre ++ [bad]) = Lines (Normal st') /\
    main args (pre ++ bad :: post) = Lines (read_lines st' post).
Proof.
  unfold main. destruct (input args) as [path|]; [|discriminate].
  intros [= Hpre] Hbad.
  destruct (on_line_malformed st bad Hbad) as (err & E).
  assert (Hn : curLine st = List.length pre).
  { apply read_lines_curLine in Hpre. exact Hpre. }
  rewrite Hn in E. rewrite <- (Nat.add_1_r (List.length pre)) in E.
  exists err. cbv zeta. split.
  - rewrite (read_lines_app _ [bad] _ _ Hpre). cbn [read_lines]. now rewrite E.
  - rewrite (read_lines_app _ (bad :: post) _ _ Hpre). cbn [read_lines]. now rewrite E.
Qed.

Lemma malformed_line_skipped_witness :
  let args := mkArguments (Some (Fin 10)) (Some "small.txt"%string) in
  let pre := [("1" ++ String tab "1")%string] in
  let st := mkReader 1 (puts (constructor (Fin 10)) [(Fin 1, Fin 1)])
              (printTableHeader ++ [Log_row (Fin 1) (Fin 1) 1 (Fin 1) (Fin 1) (Fin 1)]) in
  exists err,
    let st' := mkReader (List.length pre + 1) (rtw st)
                 (console st ++ [Error_on_line (List.length pre + 1) err]) in
    main args (pre ++ ["5"%string]) = Lines (Normal st') /\
    main args (pre ++ "5"%string :: [("5" ++ String tab "5")%string]) =
      Lines (read_lines st' [("5" ++ String tab "5")%string]).
Proof.
  apply (@malformed_line_skipped
           (mkArguments (Some (Fin 10)) (Some "small.txt"%string))
           [("1" ++ String tab "1")%string] [("5" ++ String tab "5")%string] "5"%string);
    vm_compute; reflexivity.
Defined.

Lemma trimStart_blank (s : string) : blank s = true -> trimStart s = EmptyString.
Proof.
  induction s as [|c s IH]; [reflexivity|].
  cbn [blank trimStart]. intros H. apply andb_true_iff in H.
  destruct H as [-> H]. now apply IH.
Qed.

Lemma Number_blank (s : string) : blank s = true -> Number s = Fin 0.
Proof. intros H. unfold Number. now rewrite trimStart_blank. Qed.

Lemma split_no_tab (s : string) : no_tab s = true -> split tab s = [s].
Proof.
  induction s as [|c s IH]; [reflexivity|].
  cbn [no_tab split]. intros H. apply andb_true_iff in H. destruct H as [Hc H].
  apply negb_true_iff in Hc. rewrite Hc, IH by exact H. reflexivity.
Qed.

Lemma split_one_tab (f0 f1 : string) :
  no_tab f0 = true -> no_tab f1 = true ->
  split tab (f0 ++ String tab f1) = [f0; f1].
Proof.
  intros H0 H1. induction f0 as [|c f0 IH].
  - cbn [String.append split]. rewrite Ascii.eqb_refl, split_no_tab by exact H1.
    reflexivity.
  - cbn [no_tab] in H0. apply andb_true_iff in H0. destruct H0 as [Hc H0].
    apply negb_true_iff in Hc.
    cbn [String.append split]. rewrite Hc, IH by exact H0. reflexivity.
Qed.

(** C10, as amended.  On a line with exactly one tab, a timestamp field or
    a cost field that is empty or white space only converts to [0], not to
    [NaN]; when the other field does not convert to [NaN] either,
    [parseObservation] calls [put] with [0] for the blank field and returns
    [null]. *)
Theorem blank_field_converts_to_zero (f0 f1 : string) (w : RollingTime) :
  no_tab f0 = true -> no_tab f1 = true ->
  (blank f0 = false -> isNaN (Number f0) = false) ->
  (blank f1 = false -> isNaN (Number f1) = false) ->
  let line := (f0 ++ String tab f1)%string in
  split tab line = [f0; f1] /\
  (blank f0 = true -> Number f0 = Fin 0) /\
  (blank f1 = true -> Number f1 = Fin 0) /\
  parseObservation line w =
    (None, put w (if blank f0 then Fin 0 else Number f0)
                 (if blank f1 then Fin 0 else Number f1)).
Proof.
  intros T0 T1 H0 H1 line. subst line.
  assert (E0 : (if blank f0 then Fin 0 else Number f0) = Number f0).
  { destruct (blank f0) eqn:B; [now rewrite Number_blank|reflexivity]. }
  assert (E1 : (if blank f1 then Fin 0 else Number f1) = Number f1).
  { destruct (blank f1) eqn:B; [now rewrite Number_blank|reflexivity]. }
  assert (N0 : isNaN (Number f0) = false).
  { destruct (blank f0) eqn:B; [now rewrite Number_blank|now apply H0]. }
  assert (N1 : isNaN (Number f1) = false).
  { destruct (blank f1) eqn:B; [now rewrite Number_blank|now apply H1]. }
  rewrite E0, E1. repeat split; try apply Number_blank.
  - now apply split_one_tab.
  - unfold parseObservation. rewrite split_one_tab by assumption.
    cbn [List.length Nat.eqb negb nth]. now rewrite N0, N1.
Qed.

Lemma blank_field_converts_to_zero_witness :
  let line := ("  " ++ String tab "7")%string in
  split tab line = ["  "%string; "7"%string] /\
  (blank "  " = true -> Number "  " = Fin 0) /\
  (blank "7" = true -> Number "7" = Fin 0) /\
  parseObservation line (constructor (Fin 60)) =
    (None, put (constructor (Fin 60)) (if blank "  " then Fin 0 else Number "  ")
                 (if blank "7" then Fin 0 else Number "7")).
Proof.
  apply (@blank_field_converts_to_zero "  " "7" (constructor (Fin 60)));
    vm_compute; reflexivity.
Defined.

(** C10, as stated, fails when the other field is not a number: on the line
    made of a tab followed by [abc] the timestamp field is empty, and
    [parseObservation] returns an error without calling [put]. *)
Lemma blank_timestamp_rejected_with_bad_cost :
  let line := String tab "abc" in
  split tab line = [""%string; "abc"%string] /\
  blank "" = true /\
  forall w : RollingTime,
    parseObservation line w = (Some "Cost expected to be a number"%string, w).
Proof. repeat split. Qed.

(** * Further properties of [put] *)

Lemma puts_time_window (tau : Q) (l : list (Q * Q)) : forall p,
  nondecreasing (map fst (l ++ [p])) = true ->
  puts (constructor (Fin tau)) (map inj (l ++ [p])) =
  window (Fin tau) (filter (live (timestamp (ob p) - Fin tau)) (map ob (l ++ [p]))).
Proof.
  induction l as [|q l IH] using rev_ind; intros p H.
  - cbn [app]. rewrite puts_inj_cons, constructor_window.
    now rewrite put_window_ob.
  - rewrite puts_inj_snoc.
    assert (H' : nondecreasing (map fst (l ++ [q])) = true).
    { rewrite map_app in H. now apply nondecreasing_app_l in H. }
    assert (Ht : fst q <= fst p).
    { rewrite <- app_assoc, map_app in H. cbn [app map] in H.
      exact (nondecreasing_last2 _ _ _ H). }
    assert (Hs : ascending (map timestamp (map ob (l ++ [q]) ++ [ob p])) = true).
    { change [ob p] with (map ob [p]). rewrite <- map_app. now apply ascending_ob. }
    rewrite (IH q H').
    rewrite put_window_ob by now apply filter_live_sorted_app.
    rewrite (filter_app (live (timestamp (ob p) - Fin tau)) (filter _ _)).
    rewrite filter_filter_live.
    + rewrite <- filter_app. change [ob p] with (map ob [p]). now rewrite <- map_app.
    + apply sub_mono. cbn [ob timestamp]. now apply round_mono.
Qed.

(** X1.  After a run of [put] with non-decreasing timestamps the buffer
    holds, in the order they were put, exactly the observations of the
    whole run whose timestamp [ts] satisfies [t - TAU < ts], for the
    timestamp [t] of the last call and the difference [t - TAU] as the
    program computes it, rounded to binary64. *)
Theorem buffer_is_time_window (tau : Q) (l : list (Q * Q)) (p : Q * Q) :
  nondecreasing (map fst (l ++ [p])) = true ->
  observations (puts (constructor (Fin tau)) (map inj (l ++ [p]))) =
  filter (live (timestamp (ob p) - Fin tau)) (map ob (l ++ [p])).
Proof. intros H. now rewrite puts_time_window. Qed.

Lemma buffer_is_time_window_witness :
  observations
    (puts (constructor (Fin 10)) (map inj ([(1, 1); (5, 5); (10, 10)] ++ [(15, 15)]))) =
  filter (live (timestamp (ob (15, 15)) - Fin 10))
    (map ob ([(1, 1); (5, 5); (10, 10)] ++ [(15, 15)])).
Proof. apply (buffer_is_time_window 10 [(1, 1); (5, 5); (10, 10)] (15, 15)). reflexivity. Defined.

(** X2.  After a run of [put] with non-decreasing timestamps the buffer is
    a suffix of the sequence of observations put: eviction only drops from
    the front, and never more than was put. *)
Theorem buffer_is_suffix (tau : Q) (l : list (Q * Q)) :
  nondecreasing (map fst l) = true ->
  exists k,
    (k <= List.length l)%nat /\
    observations (puts (constructor (Fin tau)) (map inj l)) = map ob (skipn k l).
Proof.
  intros H. destruct l as [|p l] using rev_ind.
  - exists 0%nat. split; [lia|reflexivity].
  - rewrite puts_time_window by exact H. cbn [window observations].
    set (x := (timestamp (ob p) - Fin tau)%num).
    exists (List.length (filter (expired x) (map ob (l ++ [p])))).
    split.
    + etransitivity; [apply filter_length_le|]. now rewrite length_map.
    + rewrite <- skipn_map.
      destruct (sorted_split x (map ob (l ++ [p]))) as [-> _]; [|reflexivity].
      now apply ascending_ob.
Qed.

Lemma buffer_is_suffix_witness :
  exists k,
    (k <= List.length [(1, 1); (5, 5); (10, 10); (15, 15)])%nat /\
    observations
      (puts (constructor (Fin 10)) (map inj [(1, 1); (5, 5); (10, 10); (15, 15)])) =
    map ob (skipn k [(1, 1); (5, 5); (10, 10); (15, 15)]).
Proof. apply (buffer_is_suffix 10 [(1, 1); (5, 5); (10, 10); (15, 15)]). reflexivity. Defined.

(** X3.  After a run of [put] with non-decreasing timestamps, whatever
    [TAU] and whatever the signs of the costs, [sum] is the sum of the
    costs in the buffer as the program adds them: from [0.0], first to
    last, each addition rounded to binary64.  It is the same whether
    [sum] was updated by [this.sum += cost] or recomputed by the rescan. *)
Theorem sum_is_rounded_sum (tau : Q) (l : list (Q * Q)) :
  nondecreasing (map fst l) = true ->
  let s := puts (constructor (Fin tau)) (map inj l) in
  sum s = rounded_sum (observations s).
Proof.
  intros H s. subst s.
  destruct (puts_fresh (Fin tau) l []) as (w & -> & _ & _).
  { now rewrite app_nil_r. }
  reflexivity.
Qed.

Lemma sum_is_rounded_sum_witness :
  let s := puts (constructor (Fin 10)) (map inj [(1, 1 # 10); (5, 2 # 10); (12, 3 # 10)]) in
  sum s = rounded_sum (observations s).
Proof. apply (sum_is_rounded_sum 10 [(1, 1 # 10); (5, 2 # 10); (12, 3 # 10)]). reflexivity. Defined.

(** The rounded sum is not the exact one: with [TAU = 10], after
    [put(1, 2^53)] and [put(2, 1)] both observations are buffered and
    [sum] is [2^53], one less than the sum of the two costs. *)
Lemma sum_rounds :
  let s := puts (constructor (Fin 10)) (map inj [(1, 9007199254740992); (2, 1)]) in
  count s = 2%nat /\
  sum s = Fin 9007199254740992 /\
  exact_sum (observations s) = Fin 9007199254740993.
Proof. vm_compute. repeat split. Qed.

Lemma costs_not_NaN (w : list observation) (l : list (Q * Q)) :
  incl w (map ob l) -> forall v, In v (map cost w) -> isNaN v = false.
Proof.
  intros Hi v Hv. apply in_map_iff in Hv. destruct Hv as (o & <- & Ho).
  destruct (In_map_ob o l (Hi o Ho)) as (q & -> & _).
  now destruct (ob_binary64 q) as (_ & _ & _ & ?).
Qed.

(** X4.  After a run of [put] with non-decreasing timestamps in which no
    cost exceeds [Number.MAX_VALUE], [min] is the least cost in the buffer
    whenever the buffer is not empty. *)
Theorem min_is_minimum (tau : Q) (l : list (Q * Q)) :
  nondecreasing (map fst l) = true ->
  (forall q, In q l -> snd q <= MAX_VALUE_Q) ->
  let s := puts (constructor (Fin tau)) (map inj l) in
  observations s <> [] ->
  is_min_cost (min s) (observations s).
Proof.
  intros H Hc s. subst s.
  destruct (puts_fresh (Fin tau) l []) as (w & -> & _ & Hi).
  { now rewrite app_nil_r. }
  cbn [window min observations]. intros Hne.
  destruct (fold_min_spec (map cost w) MAX_VALUE eq_refl (costs_not_NaN w l Hi))
    as (Hn & H1 & H2 & H3).
  cbn zeta in *. revert Hn H1 H2 H3.
  generalize (fold_left Math_min (map cost w) MAX_VALUE). intros m Hn H1 H2 H3.
  split.
  - destruct H3 as [->|H3].
    + destruct w as [|o w]; [congruence|].
      exists o. split; [now left|].
      apply num_ge_antisym; [now apply H2; left|].
      destruct (In_map_ob o l (Hi o (or_introl eq_refl))) as (q & -> & Hq).
      cbn [ob cost]. destruct MAX_VALUE_binary64 as [Hd Hb].
      apply round_le_double; [exact Hd| |now apply Hc].
      fold MAX_VALUE_Q. qabs MAX_VALUE_Q; lra.
    + apply in_map_iff in H3. destruct H3 as (o & Eo & Ho).
      exists o. split; [exact Ho|]. rewrite Eo. now apply strict_eq_refl.
  - intros o Ho. apply H2. now apply in_map.
Qed.

Lemma Forall_In_le (l : list (Q * Q)) (b : Q) :
  forallb (fun q => Qle_bool (snd q) b) l = true ->
  forall q, In q l -> snd q <= b.
Proof.
  intros H q Hq. rewrite forallb_forall in H. now apply Qle_bool_iff, H.
Qed.

Lemma min_is_minimum_witness :
  let s := puts (constructor (Fin 10)) (map inj [(1, -5); (5, 2); (12, -1)]) in
  is_min_cost (min s) (observations s).
Proof.
  apply (min_is_minimum 10 [(1, -5); (5, 2); (12, -1)]).
  - reflexivity.
  - apply Forall_In_le. vm_compute. reflexivity.
  - vm_compute. discriminate.
Defined.

(** X5.  After a run of [put] with non-decreasing timestamps, [max] is not
    below [0] nor below any cost in the buffer, and it is [0] or one of the
    costs in the buffer: it is the greatest buffered cost when that is not
    negative, and [0] otherwise. *)
Theorem max_is_clamped_maximum (tau : Q) (l : list (Q * Q)) :
  nondecreasing (map fst l) = true ->
  let s := puts (constructor (Fin tau)) (map inj l) in
  (max s >=? Fin 0)%num = true /\
  (forall o, In o (observations s) -> (max s >=? cost o)%num = true) /\
  (max s = Fin 0 \/ exists o, In o (observations s) /\ cost o = max s).
Proof.
  intros H s. subst s.
  destruct (puts_fresh (Fin tau) l []) as (w & -> & _ & Hi).
  { now rewrite app_nil_r. }
  cbn [window max observations].
  destruct (fold_max_spec (map cost w) (Fin 0) eq_refl (costs_not_NaN w l Hi))
    as (_ & H1 & H2 & H3).
  cbn zeta in *. split; [exact H1|]. split.
  - intros o Ho. apply H2. now apply in_map.
  - destruct H3 as [->|H3]; [now left|right].
    apply in_map_iff in H3. destruct H3 as (o & Eo & Ho). now exists o.
Qed.

Lemma max_is_clamped_maximum_witness :
  let s := puts (constructor (Fin 10)) (map inj [(1, -5); (5, -2)]) in
  (max s >=? Fin 0)%num = true /\
  (forall o, In o (observations s) -> (max s >=? cost o)%num = true) /\
  (max s = Fin 0 \/ exists o, In o (observations s) /\ cost o = max s).
Proof. apply (max_is_clamped_maximum 10 [(1, -5); (5, -2)]). reflexivity. Defined.

(** X6.  Timestamps in any order: when the test of [put] on the first
    observation fails, [put] leaves as many observations as there are live
    ones among those pushed, and [sum], [min] and [max] are the folds over
    the costs of the live ones, whatever they were before.  (The buffer
    itself is the pushed array without its first [newStartIndex] elements,
    which are the expired ones only when the timestamps are sorted.) *)
Theorem rescan_counts_live (s : RollingTime) (t c : number) :
  let pushed := observations s ++ [Observation t c] in
  let x := (t - TAU s)%num in
  (x <? timestamp (hd (Observation t c) pushed))%num = false ->
  let s' := put s t c in
  count s' = List.length (filter (live x) pushed) /\
  sum s' = rounded_sum (filter (live x) pushed) /\
  min s' = fold_left Math_min (map cost (filter (live x) pushed)) MAX_VALUE /\
  max s' = fold_left Math_max (map cost (filter (live x) pushed)) (Fin 0).
Proof.
  intros pushed x Hhd s'. subst s' pushed x. unfold put, count. rewrite Hhd.
  unfold forEach. rewrite fold_visit.
  cbn [observations sum min max r_sum r_min r_max newStartIndex Nat.add].
  split; [|now repeat split].
  rewrite length_skipn.
  pose proof (filter_live_expired_length (t - TAU s)
                (observations s ++ [Observation t c])). lia.
Qed.

Lemma rescan_counts_live_witness :
  let s := window (Fin 10) [ob (20, 1); ob (3, 2)] in
  let pushed := observations s ++ [Observation (Fin 30) (Fin 4)] in
  let x := (Fin 30 - TAU s)%num in
  let s' := put s (Fin 30) (Fin 4) in
  count s' = List.length (filter (live x) pushed) /\
  sum s' = rounded_sum (filter (live x) pushed) /\
  min s' = fold_left Math_min (map cost (filter (live x) pushed)) MAX_VALUE /\
  max s' = fold_left Math_max (map cost (filter (live x) pushed)) (Fin 0).
Proof.
  apply (rescan_counts_live (window (Fin 10) [ob (20, 1); ob (3, 2)]) (Fin 30) (Fin 4)).
  vm_compute. reflexivity.
Defined.

(** *** Timestamps at which the window size is not absorbed *)

Lemma integer_sub_below (z : Z) (tau : Q) :
  (- 2 ^ 53 < z <= 2 ^ 53)%Z -> 1 <= tau ->
  (Fin (inject_Z z) - Fin tau <? Fin (inject_Z z))%num = true.
Proof.
  intros Hz Htau. rewrite sub_Fin.
  assert (Hd : double (inject_Z (z - 1))).
  { exists (z - 1)%Z, 0%Z. split; [|split; lia]. change (pow2 0) with 1. ring. }
  assert (Hlt : inject_Z (z - 1) < pow2 1024).
  { rewrite pow2_Z by lia. rewrite <- Zlt_Qlt.
    apply Z.lt_le_trans with (2 ^ 53)%Z; [lia|].
    apply Z.pow_le_mono_r; lia. }
  assert (Hle : inject_Z z - tau <= inject_Z (z - 1)).
  { unfold Z.sub. rewrite inject_Z_plus, inject_Z_opp. change (inject_Z 1) with 1. lra. }
  pose proof (round_le_double _ _ Hd Hlt Hle) as Hr.
  destruct (round (inject_Z z - tau)) as [| |v|]; try discriminate; try reflexivity.
  apply ge_Fin in Hr. apply lt_Fin.
  unfold Z.sub in Hr. rewrite inject_Z_plus, inject_Z_opp in Hr.
  change (inject_Z 1) with 1 in Hr. lra.
Qed.

(** X19.  For a timestamp that is an integer above [-2^53] and not above
    [2^53], and a [TAU] of [1] or more, [timestamp - TAU] is below
    [timestamp] as the program computes it, and [put] keeps the
    observation it has just pushed: the buffer ends with it. *)
Theorem integer_timestamp_advances (s : RollingTime) (z : Z) (tau : Q) (c : number) :
  TAU s = Fin tau -> (- 2 ^ 53 < z <= 2 ^ 53)%Z -> 1 <= tau ->
  let t := Fin (inject_Z z) in
  (t - TAU s <? t)%num = true /\
  exists front, observations (put s t c) = front ++ [Observation t c].
Proof.
  intros Etau Hz Htau t.
  assert (Hadv : (t - TAU s <? t)%num = true).
  { rewrite Etau. now apply integer_sub_below. }
  split; [exact Hadv|]. now apply put_keeps_new.
Qed.

Lemma integer_timestamp_advances_witness :
  let s := puts (constructor (Fin 60)) [(Fin 1499999990, Fin 1)] in
  let t := Fin (inject_Z 1500000000) in
  (t - TAU s <? t)%num = true /\
  exists front, observations (put s t (Fin 2)) = front ++ [Observation t (Fin 2)].
Proof.
  apply (integer_timestamp_advances
           (puts (constructor (Fin 60)) [(Fin 1499999990, Fin 1)]) 1500000000 60 (Fin 2));
    [vm_compute; reflexivity|lia|discriminate].
Defined.

Lemma filter_all_expired (x : number) (l : list observation) :
  (forall o, In o l -> expired x o = true) -> filter (live x) l = [].
Proof.
  induction l as [|o l IH]; intros H; [reflexivity|].
  cbn [filter]. unfold live at 1. rewrite (H o (or_introl eq_refl)). cbn [negb].
  apply IH. intros q Hq. apply H. now right.
Qed.

Lemma ascending_end (l : list number) (a : number) :
  ascending (l ++ [a]) = true -> forall v, In v l -> num_ge a v = true.
Proof.
  induction l as [|b l IH]; intros H v Hv; [destruct Hv|].
  destruct Hv as [<-|Hv].
  - apply (ascending_head _ _ H). apply in_or_app. right. now left.
  - apply IH; [|exact Hv]. now apply ascending_tail with b.
Qed.

(** X20.  A call of [put] at a timestamp that is not [NaN] and at which
    [timestamp - TAU] is not below [timestamp], on a buffer with
    non-decreasing timestamps none of which is above the new one, evicts
    every observation, the new one included, and resets the aggregates:
    the window is as it was when constructed. *)
Theorem put_absorbed_empties (tau t c : number) (w : list observation) :
  ascending (map timestamp (w ++ [Observation t c])) = true ->
  (t - tau >=? t)%num = true ->
  put (window tau w) t c = constructor tau.
Proof.
  intros Hs Habs. rewrite put_window by exact Hs.
  replace (filter (live (t - tau)) (w ++ [Observation t c])) with (@nil observation);
    [reflexivity|].
  symmetry. apply filter_all_expired.
  intros o Ho. unfold expired.
  apply num_ge_trans with t; [exact Habs|].
  apply in_app_or in Ho. destruct Ho as [Ho|[<-|[]]].
  - rewrite map_app in Hs. apply (ascending_end _ _ Hs). now apply in_map.
  - cbn [timestamp]. apply num_ge_refl. now destruct (num_ge_not_NaN _ _ Habs).
Qed.

Lemma put_absorbed_empties_witness :
  put (window (Fin 1) [ob (100000000000000000, 5)])
    (Fin 100000000000000016) (Fin 6) =
  constructor (Fin 1).
Proof.
  apply (put_absorbed_empties (Fin 1) (Fin 100000000000000016) (Fin 6)
           [ob (100000000000000000, 5)]);
    vm_compute; reflexivity.
Defined.

(** * Further properties of the batch driver *)

(** ** [split] and [Number] *)

Lemma split_nonempty (s : string) : split tab s <> [].
Proof.
  destruct s as [|c s]; cbn [split]; [discriminate|].
  destruct (Ascii.eqb c tab); [discriminate|].
  destruct (split tab s); discriminate.
Qed.

Lemma split_length (s : string) : List.length (split tab s) = S (tabs s).
Proof.
  induction s as [|c s IH]; [reflexivity|].
  cbn [split tabs]. destruct (Ascii.eqb c tab); cbn [List.length Nat.add].
  - now rewrite IH.
  - destruct (split tab s) as [|f fs] eqn:E; [now destruct (split_nonempty s)|].
    cbn [List.length] in *. exact IH.
Qed.

(** X7.  [split] and [join] on the tab are inverse to each other on a
    line: joining the fields gives the line back, no field holds a tab,
    and there is one field more than there are tabs. *)
Theorem join_split (s : string) :
  join tab (split tab s) = s /\
  forallb no_tab (split tab s) = true /\
  List.length (split tab s) = S (tabs s).
Proof.
  split; [|split; [|apply split_length]].
  - induction s as [|c s IH]; [reflexivity|].
    cbn [split]. destruct (Ascii.eqb c tab) eqn:E.
    + apply Ascii.eqb_eq in E. subst c.
      destruct (split tab s) as [|f fs] eqn:Es; [now destruct (split_nonempty s)|].
      cbn [join String.append]. cbn [join] in IH. now rewrite IH.
    + destruct (split tab s) as [|f fs] eqn:Es; [now destruct (split_nonempty s)|].
      cbn [join] in IH |- *. destruct fs as [|g gs].
      * now rewrite IH.
      * cbn [String.append]. now rewrite IH.
  - induction s as [|c s IH]; [reflexivity|].
    cbn [split]. destruct (Ascii.eqb c tab) eqn:E.
    + cbn [forallb no_tab]. exact IH.
    + destruct (split tab s) as [|f fs] eqn:Es; [now destruct (split_nonempty s)|].
      cbn [forallb no_tab] in IH |- *. now rewrite E.
Qed.

Lemma trimStart_app_blank (a s : string) :
  blank a = true -> trimStart (a ++ s) = trimStart s.
Proof.
  induction a as [|c a IH]; [reflexivity|].
  cbn [blank String.append trimStart]. intros H. apply andb_true_iff in H.
  destruct H as [-> H]. now apply IH.
Qed.

Lemma trimEnd_blank (b : string) : blank b = true -> trimEnd b = EmptyString.
Proof.
  induction b as [|c b IH]; [reflexivity|].
  cbn [blank trimEnd]. intros H. apply andb_true_iff in H.
  destruct H as [Hc H]. now rewrite IH, Hc.
Qed.

Lemma trimEnd_app_blank (s b : string) :
  blank b = true -> trimEnd (s ++ b) = trimEnd s.
Proof.
  intros H. induction s as [|c s IH].
  - cbn [String.append]. now rewrite trimEnd_blank.
  - cbn [String.append trimEnd]. now rewrite IH.
Qed.

Lemma blank_app (a b : string) :
  blank a = true -> blank b = true -> blank (a ++ b) = true.
Proof.
  induction a as [|c a IH]; [now intros|].
  cbn [blank String.append]. intros H Hb. apply andb_true_iff in H.
  destruct H as [-> H]. now apply IH.
Qed.

Lemma trimStart_app_r (s b : string) :
  blank s = true \/ trimStart (s ++ b) = (trimStart s ++ b)%string.
Proof.
  induction s as [|c s IH]; [now left|].
  cbn [blank String.append trimStart].
  destruct (StrWhiteSpaceChar c); [|now right].
  destruct IH as [->|IH]; [now left|now right].
Qed.

(** X8.  [Number] ignores white space around its argument. *)
Theorem Number_trim (a s b : string) :
  blank a = true -> blank b = true ->
  Number (a ++ s ++ b) = Number s.
Proof.
  intros Ha Hb. unfold Number. rewrite trimStart_app_blank by exact Ha.
  destruct (trimStart_app_r s b) as [Hs|E].
  - now rewrite !trimStart_blank by (try apply blank_app; assumption).
  - now rewrite E, trimEnd_app_blank.
Qed.

Lemma Number_trim_witness :
  Number (" " ++ "1.5" ++ "  ") = Number "1.5".
Proof. apply (Number_trim " " "1.5" "  "); reflexivity. Defined.

(** ** [parseObservation] *)

Lemma malformed_false (line : string) :
  malformed line = false ->
  exists f0 f1,
    split tab line = [f0; f1] /\
    isNaN (Number f0) = false /\ isNaN (Number f1) = false.
Proof.
  unfold malformed. intros H. apply orb_false_iff in H. destruct H as [Hl Hn].
  apply negb_false_iff, Nat.eqb_eq in Hl.
  destruct (split tab line) as [|f0 [|f1 [|? ?]]]; try discriminate Hl.
  exists f0, f1. cbn [existsb] in Hn. rewrite orb_false_r in Hn.
  apply orb_false_iff in Hn. now destruct Hn.
Qed.

(** [parseObservation] either rejects a line and leaves the window as it
    is, or calls [put] with the two converted fields and returns [null]. *)
Lemma parseObservation_spec (line : string) (w : RollingTime) :
  (malformed line = true -> exists err, parseObservation line w = (Some err, w)) /\
  (malformed line = false ->
   parseObservation line w = (None, put w (fst (fields line)) (snd (fields line)))) /\
  (fst (parseObservation line w) = None <-> malformed line = false).
Proof.
  assert (Hacc : malformed line = false ->
                 parseObservation line w =
                 (None, put w (fst (fields line)) (snd (fields line)))).
  { intros H. destruct (malformed_false line H) as (f0 & f1 & E & N0 & N1).
    unfold parseObservation, fields. rewrite E.
    cbn [List.length Nat.eqb negb nth fst snd]. now rewrite N0, N1. }
  split; [apply parseObservation_malformed|]. split; [exact Hacc|].
  split.
  - intros H. destruct (malformed line) eqn:M; [|reflexivity].
    destruct (parseObservation_malformed line w M) as (err & E).
    rewrite E in H. discriminate H.
  - intros H. now rewrite Hacc.
Qed.

(** X10.  [parseObservation] returns the message on the expected format,
    which quotes the line, exactly when the line does not hold one tab and
    only one. *)
Theorem format_error_iff_tabs (line : string) (w : RollingTime) :
  fst (parseObservation line w) =
    Some ("Expected format: ${TIMESTAMP}" ++ String tab "${COST}, got: " ++ line)%string
  <-> tabs line <> 1%nat.
Proof.
  unfold parseObservation. rewrite split_length.
  destruct (tabs line) as [|[|n]]; cbn [Nat.eqb negb fst].
  - split; [intros _; discriminate|reflexivity].
  - split; [|now intros H].
    destruct (isNaN _); [discriminate|]. destruct (isNaN _); discriminate.
  - split; [intros _; discriminate|reflexivity].
Qed.

(** ** The ['line'] handler and [main] *)

Lemma skipn_snoc_rev (A : Type) (k : nat) (l : list A) (x : A) :
  skipn k (l ++ [x]) = [] \/ exists r, rev (skipn k (l ++ [x])) = x :: r.
Proof.
  destruct (Nat.le_gt_cases k (List.length l)) as [Hk|Hk].
  - right. exists (rev (skipn k l)). rewrite skipn_app.
    replace (k - List.length l)%nat with 0%nat by lia.
    cbn [skipn]. now rewrite rev_app_distr.
  - left. apply skipn_all2. rewrite length_app. cbn [List.length]. lia.
Qed.

(** After [put] the buffer is empty or ends with the observation put. *)
Lemma put_last (s : RollingTime) (ts c : number) :
  observations (put s ts c) = [] \/
  exists r, rev (observations (put s ts c)) = Observation ts c :: r.
Proof.
  unfold put. destruct (num_lt _ _); cbn [observations].
  - right. exists (rev (observations s)). now rewrite rev_app_distr.
  - apply skipn_snoc_rev.
Qed.

Lemma on_line_spec (st st' : reader) (line : string) :
  on_line st line = Normal st' ->
  curLine st' = S (curLine st) /\
  rtw st' = (if malformed line then rtw st
             else put (rtw st) (fst (fields line)) (snd (fields line))) /\
  exists out, console st' = console st ++ [out] /\ reported (S (curLine st)) line out.
Proof.
  unfold on_line, reported.
  destruct (parseObservation_spec line (rtw st)) as (Hbad & Hgood & _).
  destruct (malformed line).
  - destruct (Hbad eq_refl) as (err & ->). intros [= <-]. cbn [curLine rtw console].
    repeat split. exists (Error_on_line (S (curLine st)) err). split; [reflexivity|].
    now exists err.
  - rewrite (Hgood eq_refl). unfold printRtwState.
    destruct (put_last (rtw st) (fst (fields line)) (snd (fields line))) as [E|(r & E)];
      rewrite E; [discriminate|].
    intros [= <-]. cbn [curLine rtw console timestamp cost].
    repeat split. eexists. split; [reflexivity|].
    now eexists _, _, _, _.
Qed.

Lemma read_lines_spec (lines : list string) : forall st st',
  read_lines st lines = Normal st' ->
  rtw st' = puts (rtw st) (map fields (filter accepted lines)) /\
  exists outs,
    console st' = console st ++ outs /\
    List.length outs = List.length lines /\
    forall i line, nth_error lines i = Some line ->
      exists out, nth_error outs i = Some out /\
                  reported (curLine st + S i) line out.
Proof.
  induction lines as [|l lines IH]; intros st st'; cbn [read_lines].
  - intros [= <-]. split; [reflexivity|]. exists []. rewrite app_nil_r.
    repeat split. intros [|i] line H; discriminate H.
  - destruct (on_line st l) as [st1|] eqn:E; [|discriminate]. intros H.
    destruct (on_line_spec _ _ _ E) as (Hn & Hw & out & Hc & Hr).
    destruct (IH _ _ H) as (Hw' & outs & Hc' & Hlen & Hnth).
    split.
    + rewrite Hw', Hw. cbn [filter]. unfold accepted at 2.
      destruct (malformed l); cbn [negb map]; [reflexivity|].
      now rewrite puts_cons.
    + exists (out :: outs). rewrite Hc', Hc, <- app_assoc. repeat split.
      * cbn [List.length]. now rewrite Hlen.
      * intros [|i] line Hi; cbn [nth_error] in *.
        -- injection Hi as <-. exists out. split; [reflexivity|].
           now rewrite Nat.add_1_r.
        -- destruct (Hnth i line Hi) as (o & Ho & Hrep). exists o.
           split; [exact Ho|]. rewrite Hn in Hrep.
           now rewrite Nat.add_succ_r.
Qed.

(** X11.  When [main] has read a file to its end, it has written the two
    header lines and then one entry for each line, in order: the error
    with the 1-based number of the line if the line is malformed, and
    otherwise a row that starts with the two numbers converted from the
    line. *)
Theorem one_output_per_line (args : arguments) (lines : list string) (st : reader) :
  main args lines = Lines (Normal st) ->
  exists outs,
    console st = printTableHeader ++ outs /\
    List.length outs = List.length lines /\
    forall i line, nth_error lines i = Some line ->
      exists out, nth_error outs i = Some out /\ reported (S i) line out.
Proof.
  unfold main. destruct (input args); [|discriminate]. intros [= H].
  destruct (read_lines_spec _ _ _ H) as (_ & outs & Hc & Hlen & Hnth).
  exists outs. repeat split; assumption.
Qed.

Lemma one_output_per_line_witness :
  let lines := [("1" ++ String tab "1")%string; "bad"%string] in
  let st := mkReader 2 (puts (constructor (Fin 10)) [(Fin 1, Fin 1)])
              (printTableHeader ++
               [Log_row (Fin 1) (Fin 1) 1 (Fin 1) (Fin 1) (Fin 1);
                Error_on_line 2
                  ("Expected format: ${TIMESTAMP}" ++ String tab "${COST}, got: bad")%string]) in
  exists outs,
    console st = printTableHeader ++ outs /\
    List.length outs = List.length lines /\
    forall i line, nth_error lines i = Some line ->
      exists out, nth_error outs i = Some out /\ reported (S i) line out.
Proof.
  apply (one_output_per_line
           (mkArguments (Some (Fin 10)) (Some "small.txt"%string))
           [("1" ++ String tab "1")%string; "bad"%string]).
  vm_compute. reflexivity.
Defined.

(** X12.  When [main] has read a file to its end, the window is the one
    that the calls of [put] for the accepted lines alone build, in order,
    from a fresh window of size [args.tau] (or [60]); the rejected lines
    leave no trace in it, and [curLine] is the number of lines read. *)
Theorem main_window_is_puts_of_accepted
  (args : arguments) (lines : list string) (st : reader) :
  main args lines = Lines (Normal st) ->
  rtw st = puts (constructor (window_size args)) (map fields (filter accepted lines)) /\
  curLine st = List.length lines.
Proof.
  unfold main, window_size. destruct (input args); [|discriminate]. intros [= H].
  split.
  - now destruct (read_lines_spec _ _ _ H) as (-> & _).
  - now apply read_lines_curLine in H.
Qed.

Lemma main_window_is_puts_of_accepted_witness :
  let args := mkArguments None (Some "small.txt"%string) in
  let lines := [("1" ++ String tab "1")%string; "bad"%string; ("5" ++ String tab "2")%string] in
  let st := mkReader 3 (puts (constructor (Fin 60)) [(Fin 1, Fin 1); (Fin 5, Fin 2)])
              (printTableHeader ++
               [Log_row (Fin 1) (Fin 1) 1 (Fin 1) (Fin 1) (Fin 1);
                Error_on_line 2
                  ("Expected format: ${TIMESTAMP}" ++ String tab "${COST}, got: bad")%string;
                Log_row (Fin 5) (Fin 2) 2 (Fin 3) (Fin 1) (Fin 2)]) in
  rtw st = puts (constructor (window_size args)) (map fields (filter accepted lines)) /\
  curLine st = List.length lines.
Proof.
  apply (main_window_is_puts_of_accepted
           (mkArguments None (Some "small.txt"%string))
           [("1" ++ String tab "1")%string; "bad"%string; ("5" ++ String tab "2")%string]).
  vm_compute. reflexivity.
Defined.

Lemma on_line_TAU (st st' : reader) (line : string) :
  on_line st line = Normal st' -> TAU (rtw st') = TAU (rtw st).
Proof.
  intros H. destruct (on_line_spec _ _ _ H) as (_ & -> & _).
  destruct (malformed line); [reflexivity|apply TAU_put].
Qed.

Lemma read_lines_completes (lines : list string) : forall st,
  forallb (fun line => malformed line || advances (TAU (rtw st)) line) lines = true ->
  exists st', read_lines st lines = Normal st'.
Proof.
  induction lines as [|l lines IH]; intros st H; cbn [read_lines].
  - now exists st.
  - cbn [forallb] in H. apply andb_true_iff in H. destruct H as [Hl H].
    assert (E : exists st1, on_line st l = Normal st1).
    { destruct (malformed l) eqn:M.
      - destruct (on_line_malformed st l M) as (err & ->). now eexists.
      - cbn [orb] in Hl. unfold on_line.
        destruct (parseObservation_spec l (rtw st)) as (_ & -> & _); [|exact M].
        destruct (put_keeps_new (rtw st) (fst (fields l)) (snd (fields l)) Hl)
          as (front & E).
        unfold printRtwState. rewrite E, rev_app_distr. cbn [rev app].
        now eexists. }
    destruct E as (st1 & E). rewrite E. apply IH.
    now rewrite (on_line_TAU _ _ _ E).
Qed.

(** X13.  [main] reads a file to its end without an uncaught error when,
    on every line that is not rejected, the window size is not absorbed at
    the timestamp: [timestamp - TAU < timestamp] as [put] computes it.
    (This fails for the timestamp [Infinity], and for a finite timestamp so
    large that [timestamp - TAU] rounds back to it.) *)
Theorem main_reads_to_the_end
  (args : arguments) (path : string) (lines : list string) :
  input args = Some path ->
  forallb (fun line => malformed line || advances (window_size args) line) lines = true ->
  exists st, main args lines = Lines (Normal st).
Proof.
  unfold main. fold (window_size args). intros -> H.
  destruct (read_lines_completes lines
              (mkReader 0 (constructor (window_size args)) printTableHeader) H)
    as (st & E).
  exists st. now rewrite E.
Qed.

Lemma main_reads_to_the_end_witness :
  exists st,
    main (mkArguments None (Some "small.txt"%string))
      [("1" ++ String tab "1")%string; "bad"%string; ("5" ++ String tab "Infinity")%string] =
    Lines (Normal st).
Proof.
  apply (main_reads_to_the_end
           (mkArguments None (Some "small.txt"%string)) "small.txt"%string
           [("1" ++ String tab "1")%string; "bad"%string;
            ("5" ++ String tab "Infinity")%string]);
    vm_compute; reflexivity.
Defined.

Lemma read_lines_all_malformed (lines : list string) : forall st,
  forallb malformed lines = true ->
  exists st', read_lines st lines = Normal st' /\ rtw st' = rtw st.
Proof.
  induction lines as [|l lines IH]; intros st H; cbn [read_lines].
  - now exists st.
  - cbn [forallb] in H. apply andb_true_iff in H. destruct H as [Hl H].
    destruct (on_line_malformed st l Hl) as (err & ->).
    destruct (IH (mkReader (S (curLine st)) (rtw st)
                    (console st ++ [Error_on_line (S (curLine st)) err])) H)
      as (st' & E & Hw).
    exists st'. now split.
Qed.

(** [Number] returns a value of the type. *)
Lemma Number_binary64 (s : string) : binary64 (Number s).
Proof.
  assert (H0 : binary64 (Fin 0)).
  { change (Fin 0) with (round 0). apply round_binary64. }
  assert (HU : forall r, binary64 (StrUnsignedDecimalLiteral r)).
  { intros r. unfold StrUnsignedDecimalLiteral.
    destruct (String.eqb r "Infinity"); [exact I|].
    destruct (digits 10 r) as [ip r1].
    destruct (match r1 with String "." r0 => digits 10 r0 | _ => ([], r1) end) as [fp r2].
    destruct (ip ++ fp) as [|d ds]; [exact I|].
    destruct r2 as [|e r3]; [apply round_binary64|].
    destruct (Ascii.eqb e "e" || Ascii.eqb e "E"); [|exact I].
    destruct (exponent r3); [apply round_binary64|exact I]. }
  unfold Number. destruct (trimEnd (trimStart s)) as [|c r] eqn:E; [exact H0|].
  destruct (NonDecimalIntegerLiteral (String c r)) as [n|] eqn:En.
  - unfold NonDecimalIntegerLiteral in En.
    destruct (Ascii.eqb c "0"%char) eqn:Ec; [|now destruct c as [[] [] [] [] [] [] [] []]].
    apply Ascii.eqb_eq in Ec. subst c. destruct r as [|p r']; [discriminate|].
    destruct (if (Ascii.eqb p "b" || Ascii.eqb p "B")%bool then Some 2%Z
              else if (Ascii.eqb p "o" || Ascii.eqb p "O")%bool then Some 8%Z
              else if (Ascii.eqb p "x" || Ascii.eqb p "X")%bool then Some 16%Z
              else None) as [rx|]; [|discriminate].
    destruct (digits rx r') as [[|d ds] [|? ?]]; injection En as <-;
      try exact I; apply round_binary64.
  - unfold StrDecimalLiteral.
    destruct (Ascii.eqb c "+"%char) eqn:Ep.
    { apply Ascii.eqb_eq in Ep. subst c. apply HU. }
    destruct (Ascii.eqb c "-"%char) eqn:Em.
    { apply Ascii.eqb_eq in Em. subst c. apply binary64_neg, HU. }
    replace (match c with
             | "+"%char => StrUnsignedDecimalLiteral r
             | "-"%char => num_neg (StrUnsignedDecimalLiteral r)
             | _ => StrUnsignedDecimalLiteral (String c r)
             end) with (StrUnsignedDecimalLiteral (String c r)); [apply HU|].
    destruct c as [[] [] [] [] [] [] [] []]; try reflexivity; discriminate.
Qed.

(** X14.  With a window size that is zero or negative, the first line that
    is not rejected makes the handler throw: [put] evicts the observation
    it has just pushed and [printRtwState] reads a property of
    [undefined].  The run ends there, whatever lines follow. *)
Theorem nonpositive_tau_throws
  (args : arguments) (path : string) (tau : Q) (pre post : list string) (good : string) :
  input args = Some path ->
  window_size args = Fin tau ->
  tau <= 0 ->
  forallb malformed pre = true ->
  malformed good = false ->
  isFinite (fst (fields good)) && isFinite (snd (fields good)) = true ->
  main args (pre ++ good :: post) =
  Lines (Throw "TypeError: Cannot read property 'timestamp' of undefined").
Proof.
  unfold main, window_size. intros -> -> Htau Hpre Hgood Hfin.
  destruct (read_lines_all_malformed pre
              (mkReader 0 (constructor (Fin tau)) printTableHeader) Hpre)
    as (st & E & Hw).
  rewrite (read_lines_app _ (good :: post) _ _ E). cbn [read_lines].
  unfold on_line.
  destruct (parseObservation_spec good (rtw st)) as (_ & -> & _); [|exact Hgood].
  apply andb_true_iff in Hfin. destruct Hfin as [Ht Hc].
  rewrite Hw. cbn [rtw]. rewrite put_nonpositive_tau; [reflexivity| | |exact Htau].
  - unfold fields. cbn [fst]. apply Number_binary64.
  - now destruct (fst (fields good)).
Qed.

Lemma nonpositive_tau_throws_witness :
  main (mkArguments (Some (Fin 0)) (Some "small.txt"%string))
    (["bad"%string] ++ ("1" ++ String tab "1")%string :: [("2" ++ String tab "2")%string]) =
  Lines (Throw "TypeError: Cannot read property 'timestamp' of undefined").
Proof.
  apply (nonpositive_tau_throws
           (mkArguments (Some (Fin 0)) (Some "small.txt"%string)) "small.txt"%string 0
           ["bad"%string] [("2" ++ String tab "2")%string] ("1" ++ String tab "1")%string);
    try (vm_compute; reflexivity).
  vm_compute. discriminate.
Defined.

Lemma fold_visit_all_expired (ts tau : number) (l : list observation) : forall acc,
  forallb (fun o => (ts - tau >=? timestamp o)%num) l = true ->
  fold_left (visit ts tau) l acc =
  mkRescan (r_sum acc) (r_min acc) (r_max acc) (newStartIndex acc + List.length l).
Proof.
  induction l as [|o l IH]; intros acc H; cbn [fold_left List.length].
  - rewrite Nat.add_0_r. now destruct acc.
  - cbn [forallb] in H. apply andb_true_iff in H. destruct H as [Ho H].
    rewrite IH by exact H. unfold visit. rewrite Ho.
    cbn [r_sum r_min r_max newStartIndex]. f_equal. lia.
Qed.

Lemma num_ge_not_lt (a b : number) : num_ge a b = true -> num_lt a b = false.
Proof.
  destruct a, b; cbn [num_ge num_lt negb]; try discriminate; try reflexivity.
  intros H. now apply negb_true_iff in H.
Qed.

(** When every observation pushed is expired, [put] leaves the window as
    the constructor makes it. *)
Lemma put_all_expired (s : RollingTime) (t c : number) :
  forallb (fun o => (t - TAU s >=? timestamp o)%num)
    (observations s ++ [Observation t c]) = true ->
  put s t c = constructor (TAU s).
Proof.
  intros H. unfold put.
  assert (Hhd : (t - TAU s <?
                 timestamp (hd (Observation t c) (observations s ++ [Observation t c])))%num
                = false).
  { apply num_ge_not_lt. rewrite forallb_forall in H. apply H.
    destruct (observations s); now left. }
  rewrite Hhd. unfold forEach. rewrite fold_visit_all_expired by exact H.
  cbn [r_sum r_min r_max newStartIndex Nat.add].
  now rewrite skipn_all.
Qed.

Lemma Infinity_all_expired (tau : Q) (c : number) (l : list observation) :
  forallb (fun o => negb (isNaN (timestamp o))) l = true ->
  forallb (fun o => (Infinity - Fin tau >=? timestamp o)%num)
    (l ++ [Observation Infinity c]) = true.
Proof.
  intros Hobs. rewrite forallb_app. apply andb_true_iff. split; [|reflexivity].
  rewrite forallb_forall in *. intros o Ho. specialize (Hobs o Ho).
  change (Infinity - Fin tau)%num with Infinity. now destruct (timestamp o).
Qed.

(** X15.  A call of [put] with the timestamp [Infinity] on a window of
    finite size evicts every observation, the new one included, and
    resets the aggregates: the window is as it was when constructed.
    (No buffered timestamp is [NaN]: [parseObservation] lets none in.) *)
Theorem put_infinite_timestamp_empties (s : RollingTime) (tau : Q) (c : number) :
  TAU s = Fin tau ->
  forallb (fun o => negb (isNaN (timestamp o))) (observations s) = true ->
  put s Infinity c = constructor (Fin tau).
Proof.
  intros Etau Hobs. rewrite <- Etau. apply put_all_expired.
  rewrite Etau. now apply Infinity_all_expired.
Qed.

Lemma put_infinite_timestamp_empties_witness :
  put (puts (constructor (Fin 10)) [(Fin 1, Fin 1); (Fin 5, Fin 5)]) Infinity (Fin 3) =
  constructor (Fin 10).
Proof.
  apply (put_infinite_timestamp_empties
           (puts (constructor (Fin 10)) [(Fin 1, Fin 1); (Fin 5, Fin 5)]) 10 (Fin 3));
    vm_compute; reflexivity.
Defined.

Lemma In_skipn (A : Type) (k : nat) : forall (l : list A) (x : A),
  In x (skipn k l) -> In x l.
Proof.
  induction k as [|k IH]; intros l x H; [exact H|].
  destruct l as [|a l]; [exact H|]. right. now apply IH.
Qed.

Lemma put_no_NaN_timestamp (s : RollingTime) (ts c : number) :
  forallb (fun o => negb (isNaN (timestamp o))) (observations s) = true ->
  isNaN ts = false ->
  forallb (fun o => negb (isNaN (timestamp o))) (observations (put s ts c)) = true.
Proof.
  intros Hs Hts.
  assert (Hp : forallb (fun o => negb (isNaN (timestamp o)))
                 (observations s ++ [Observation ts c]) = true).
  { rewrite forallb_app, Hs. cbn. now rewrite Hts. }
  unfold put. destruct (num_lt _ _); cbn [observations]; [exact Hp|].
  rewrite forallb_forall in *. intros o Ho. apply Hp. now apply In_skipn in Ho.
Qed.

Lemma puts_accepted_no_NaN_timestamp (lines : list string) : forall s,
  forallb (fun o => negb (isNaN (timestamp o))) (observations s) = true ->
  forallb (fun o => negb (isNaN (timestamp o)))
    (observations (puts s (map fields (filter accepted lines)))) = true.
Proof.
  induction lines as [|l lines IH]; intros s Hs; [exact Hs|].
  cbn [filter]. unfold accepted at 1. destruct (malformed l) eqn:M; cbn [negb map].
  - now apply IH.
  - rewrite puts_cons. apply IH, put_no_NaN_timestamp; [exact Hs|].
    destruct (malformed_false l M) as (f0 & f1 & E & N0 & _).
    unfold fields. now rewrite E.
Qed.

(** X16.  A line that is not rejected and whose timestamp field converts to
    [Infinity] ends the run of [main] with an uncaught error, for any
    finite window size: [put] empties the buffer and [printRtwState] reads
    a property of [undefined]. *)
Theorem infinite_timestamp_throws
  (args : arguments) (tau : Q) (pre post : list string) (line : string) (st : reader) :
  window_size args = Fin tau ->
  main args pre = Lines (Normal st) ->
  malformed line = false ->
  fst (fields line) = Infinity ->
  main args (pre ++ line :: post) =
  Lines (Throw "TypeError: Cannot read property 'timestamp' of undefined").
Proof.
  unfold main, window_size. destruct (input args); [|discriminate].
  intros -> [= Hpre] Hline Hts.
  rewrite (read_lines_app _ (line :: post) _ _ Hpre). cbn [read_lines].
  destruct (read_lines_spec _ _ _ Hpre) as (Hw & _). cbn [rtw] in Hw.
  unfold on_line.
  destruct (parseObservation_spec line (rtw st)) as (_ & -> & _); [|exact Hline].
  assert (Etau : TAU (rtw st) = Fin tau) by now rewrite Hw, TAU_puts.
  rewrite Hts, put_all_expired; [reflexivity|].
  rewrite Etau. apply Infinity_all_expired.
  rewrite Hw. now apply puts_accepted_no_NaN_timestamp.
Qed.

Lemma infinite_timestamp_throws_witness :
  main (mkArguments None (Some "small.txt"%string))
    ([("1" ++ String tab "1")%string] ++ ("Infinity" ++ String tab "2")%string :: []) =
  Lines (Throw "TypeError: Cannot read property 'timestamp' of undefined").
Proof.
  apply (infinite_timestamp_throws
           (mkArguments None (Some "small.txt"%string)) 60
           [("1" ++ String tab "1")%string] [] ("Infinity" ++ String tab "2")%string
           (mkReader 1 (puts (constructor (Fin 60)) [(Fin 1, Fin 1)])
              (printTableHeader ++ [Log_row (Fin 1) (Fin 1) 1 (Fin 1) (Fin 1) (Fin 1)])));
    vm_compute; reflexivity.
Defined.

Lemma read_lines_app_inv (l1 l2 : list string) : forall st st',
  read_lines st (l1 ++ l2) = Normal st' ->
  exists st1, read_lines st l1 = Normal st1 /\ read_lines st1 l2 = Normal st'.
Proof.
  induction l1 as [|l l1 IH]; intros st st' H; cbn [app read_lines] in *.
  - now exists st.
  - destruct (on_line st l); [|discriminate]. now apply IH.
Qed.

(** X17.  After a line that is not rejected, the last thing [main] has
    written is the row of that line: its two converted numbers, then the
    number of observations, [sum], [min] and [max] of the window as it is
    after the call of [put] for the line. *)
Theorem row_reports_window
  (args : arguments) (pre : list string) (line : string) (st : reader) :
  main args (pre ++ [line]) = Lines (Normal st) ->
  malformed line = false ->
  exists before,
    console st =
    before ++ [Log_row (fst (fields line)) (snd (fields line))
                 (count (rtw st)) (sum (rtw st)) (min (rtw st)) (max (rtw st))].
Proof.
  unfold main. destruct (input args); [|discriminate]. intros [= H] Hline.
  apply read_lines_app_inv in H. destruct H as (st0 & _ & H).
  cbn [read_lines] in H. destruct (on_line st0 line) as [st1|] eqn:E; [|discriminate].
  injection H as ->. unfold on_line in E.
  destruct (parseObservation_spec line (rtw st0)) as (_ & Hacc & _).
  rewrite (Hacc Hline) in E. unfold printRtwState in E.
  destruct (put_last (rtw st0) (fst (fields line)) (snd (fields line))) as [E'|(r & E')];
    rewrite E' in E; [discriminate|].
  injection E as <-. cbn [console rtw timestamp cost]. now exists (console st0).
Qed.

Lemma row_reports_window_witness :
  let line := ("5" ++ String tab "2")%string in
  let st := mkReader 2 (puts (constructor (Fin 60)) [(Fin 1, Fin 1); (Fin 5, Fin 2)])
              (printTableHeader ++
               [Log_row (Fin 1) (Fin 1) 1 (Fin 1) (Fin 1) (Fin 1);
                Log_row (Fin 5) (Fin 2) 2 (Fin 3) (Fin 1) (Fin 2)]) in
  exists before,
    console st =
    before ++ [Log_row (fst (fields line)) (snd (fields line))
                 (count (rtw st)) (sum (rtw st)) (min (rtw st)) (max (rtw st))].
Proof.
  apply (row_reports_window
           (mkArguments None (Some "small.txt"%string))
           [("1" ++ String tab "1")%string] ("5" ++ String tab "2")%string);
    vm_compute; reflexivity.
Defined.
